(** * Dune Legacy: air-unit movement, turning, targeting and persistence

    A shallow embedding of [AirUnit] and [Ornithopter] (the two unit classes
    of the sources), of [angleToDrawnAngle] from [mmath.h] and of the
    constants of [Definitions.h], together with the properties that the
    specification states about them. *)

From Stdlib Require Import ZArith Lia Bool List.
From stdpp Require Import base decidable countable gmap list.

Local Open Scope Z_scope.

(** ** Constants of [Definitions.h] and [DataTypes.h] *)

(** [#define TILESIZE 64] *)
Definition TILESIZE : Z := 64.

(** [#define INVALID_POS (-1)] *)
Definition INVALID_POS : Z := -1.

(** Modelled from the spec: [NUM_ANGLES] of [DataTypes.h], which is absent;
    the spec gives "a discrete ring of NUM_ANGLES (8) buckets", and the
    comment next to [angleToDrawnAngle] equates [% NUM_ANGLES] with [& 0x7]. *)
Definition NUM_ANGLES : Z := 8.

(** [#define ORNITHOPTER_FRAMETIME 3] *)
Definition ORNITHOPTER_FRAMETIME : Z := 3.

(** ** Fixed-point numbers *)

(** Modelled from the spec: the [FixPoint] class of [fixmath/FixPoint.h],
    which is absent.  A value is its raw integer, the number scaled by
    [2 ^ FRACBITS]; sums, differences, comparisons, [abs], [min] and the
    shifts act on the raw integer.  Raw integers are unbounded here: the
    properties below concern values far from the ends of the machine range,
    where the source's signed arithmetic has no defined wrap-around anyway. *)
Module FixPt.

(** Modelled from the spec: the number of fractional bits of the absent
    [FixPoint] class. *)
Definition FRACBITS : Z := 32.

(** The raw values of 1 and of 1/2. *)
Definition one : Z := 2 ^ FRACBITS.

Definition half : Z := 2 ^ (FRACBITS - 1).

(** Modelled from the spec: the implicit conversion [FixPoint(int)] of the
    absent class. *)
Definition fromInt (n : Z) : Z := n * one.

(** Modelled from the spec: "rounding to nearest integer" (section 4.1).
    The source calls it [lround]; as with the C function of that name, a
    value halfway between two integers goes away from zero. *)
Definition lround (x : Z) : Z :=
  if 0 <=? x then Z.quot (x + half) one else Z.quot (x - half) one.

(** Modelled from the spec: [x >> n] of the absent class shifts the raw
    value, as the comment [angle*NUM_ANGLES/256] next to [angle >> 5] has
    it. *)
Definition shr (x n : Z) : Z := Z.shiftr x n.

(** Modelled from the spec: [x << n] of the absent class, likewise. *)
Definition shl (x n : Z) : Z := Z.shiftl x n.

End FixPt.

Abbreviation FixPoint := Z (only parsing).

(** ** [mmath.h] *)

(** [inline int angleToDrawnAngle(FixPoint angle) { return lround(angle >> 5) & 0x7; }] *)
Definition angleToDrawnAngle (angle : FixPoint) : Z :=
  Z.land (FixPt.lround (FixPt.shr angle 5)) 7.

(** The formula of the specification, [round(angle256 / 32) mod 8], on the
    exact quotient: the integer nearest to [angle / 32], a half going up. *)
Definition spec_drawnAngle (angle : FixPoint) : Z :=
  ((angle + 16 * FixPt.one) / (32 * FixPt.one)) mod 8.


(** ** Coordinates *)

(** Modelled from the spec: the [Coord] class of [DataTypes.h], which is
    absent.  The invalid state is the [INVALID_POS] component that
    [Definitions.h] defines. *)
Record Coord : Type := mkCoord { coord_x : Z; coord_y : Z }.

#[global] Instance Coord_eq_dec : EqDecision Coord.
Proof. solve_decision. Defined.

#[global] Instance Coord_countable : Countable Coord.
Proof.
  apply (inj_countable' (fun c => (coord_x c, coord_y c))
                        (fun p => mkCoord (fst p) (snd p))).
  intros [cx cy]; reflexivity.
Defined.

(** Modelled from the spec: [Coord::Invalid()], the value that
    [invalidate()] assigns; [Coord] is absent. *)
Definition Coord_Invalid : Coord := mkCoord INVALID_POS INVALID_POS.

(** Modelled from the spec: [Coord::isValid()] of the absent class, "explicit
    valid/invalid state": no component is [INVALID_POS]. *)
Definition isValid (c : Coord) : bool :=
  negb (coord_x c =? INVALID_POS) && negb (coord_y c =? INVALID_POS).

(** Modelled from the spec: [Coord::isInvalid()] of the absent class, the
    negation of [isValid]. *)
Definition isInvalid (c : Coord) : bool :=
  (coord_x c =? INVALID_POS) || (coord_y c =? INVALID_POS).

(** ** Tiles and the map *)

(** Modelled from the spec: the [Tile] class, which is absent.  "Tile: owns
    sets of occupying object references, keyed by category"; the two
    categories kept here are the air units and the ground objects. *)
Record Tile : Type := mkTile {
  assignedAirUnitList : list Z;
  assignedNonInfantryGroundObjectList : list Z
}.

(** Modelled from the spec: [Tile::assignAirUnit] of the absent class,
    "[assign(objectID, coordinate, category)] registers occupancy". *)
Definition assignAirUnit (newObjectID : Z) (t : Tile) : Tile :=
  {| assignedAirUnitList := assignedAirUnitList t ++ [newObjectID];
     assignedNonInfantryGroundObjectList := assignedNonInfantryGroundObjectList t |}.

(** Modelled from the spec: [Tile::unassignObject] of the absent class,
    "[unassign(objectID, coordinate, category)] removes it", in every
    category. *)
Definition unassignObject (objID : Z) (t : Tile) : Tile :=
  {| assignedAirUnitList :=
       filter (fun i => i <> objID) (assignedAirUnitList t);
     assignedNonInfantryGroundObjectList :=
       filter (fun i => i <> objID) (assignedNonInfantryGroundObjectList t) |}.

(** Modelled from the spec: [Tile::hasAnAirUnit] of the absent class: the
    tile has an occupant of the air category. *)
Definition hasAnAirUnit (t : Tile) : bool :=
  match assignedAirUnitList t with [] => false | _ :: _ => true end.

(** Modelled from the spec: the [Map] class, which is absent, as the finite
    map from the coordinates that have a tile to their tiles;
    "[tileExists(coord) -> bool], [getTile(coord) -> TileHandle]". *)
Abbreviation Map := (gmap Coord Tile).

(** Modelled from the spec: [Map::getTile] of the absent class,
    "[getTile(coord) -> TileHandle]"; [None] where there is no tile. *)
Definition getTile (m : Map) (pos : Coord) : option Tile := m !! pos.

(** Modelled from the spec: [Map::tileExists] of the absent class,
    "[tileExists(coord) -> bool]". *)
Definition tileExists (m : Map) (pos : Coord) : bool :=
  match getTile m pos with Some _ => true | None => false end.

(** ** Static balance data *)

(** Modelled from the spec: [ItemID_enum] of [data.h], which is absent; the
    two entries that the sources name, and the rest of the enumeration. *)
Inductive ItemID : Type :=
  | Unit_Ornithopter
  | Unit_Sandworm
  | Item_Other (n : Z).

#[global] Instance ItemID_eq_dec : EqDecision ItemID.
Proof. solve_decision. Defined.

(** Modelled from the spec: "Static balance table: indexed by
    [item-type][house-type] -> {maxSpeed, turnSpeed, ...}". *)
Record ObjectDataStruct : Type := mkObjectData {
  maxspeed : FixPoint;
  turnspeed : FixPoint;
  weaponreloadtime : Z
}.

(** What the sources read through [currentGame]. *)
Record Game : Type := mkGame {
  objectData : ItemID -> Z -> ObjectDataStruct;
  gameCycleCount : Z
}.

(** ** Units *)

(** The dynamic class of a unit object: it selects the overriding
    [checkPos] and [canPass]. *)
Inductive UnitClass : Type := ClsAirUnit | ClsOrnithopter.

(** Modelled from the spec: the members of the absent class declarations of
    [ObjectBase], [UnitBase] and [AirUnit] that the sources read or write.  [target] is the object the unit fights, if any;
    [ownerTeam] is [owner->getTeam()]. *)
Record Unit : Type := mkUnit {
  objectID : Z;
  cls : UnitClass;
  itemID : ItemID;
  originalHouseID : Z;
  ownerTeam : Z;
  health : FixPoint;
  realX : FixPoint;
  realY : FixPoint;
  location : Coord;
  destination : Coord;
  guardPoint : Coord;
  angle : FixPoint;
  drawnAngle : Z;
  drawnFrame : Z;
  numImagesY : Z;
  target : option Z;
  primaryWeaponTimer : Z;
  currentMaxSpeed : FixPoint;
  aFlyingUnit : bool;
  moving : bool;
  justStoppedMoving : bool
}.

Definition set_guardPoint (new_guardPoint : Coord) (u : Unit) : Unit :=
  {| objectID := objectID u; cls := cls u; itemID := itemID u;
     originalHouseID := originalHouseID u; ownerTeam := ownerTeam u;
     health := health u; realX := realX u; realY := realY u;
     location := location u; destination := destination u;
     guardPoint := new_guardPoint; angle := angle u;
     drawnAngle := drawnAngle u; drawnFrame := drawnFrame u;
     numImagesY := numImagesY u; target := target u;
     primaryWeaponTimer := primaryWeaponTimer u;
     currentMaxSpeed := currentMaxSpeed u; aFlyingUnit := aFlyingUnit u;
     moving := moving u; justStoppedMoving := justStoppedMoving u |}.

Definition set_real (new_realX : FixPoint) (new_realY : FixPoint) (u : Unit) : Unit :=
  {| objectID := objectID u; cls := cls u; itemID := itemID u;
     originalHouseID := originalHouseID u; ownerTeam := ownerTeam u;
     health := health u; realX := new_realX; realY := new_realY;
     location := location u; destination := destination u;
     guardPoint := guardPoint u; angle := angle u;
     drawnAngle := drawnAngle u; drawnFrame := drawnFrame u;
     numImagesY := numImagesY u; target := target u;
     primaryWeaponTimer := primaryWeaponTimer u;
     currentMaxSpeed := currentMaxSpeed u; aFlyingUnit := aFlyingUnit u;
     moving := moving u; justStoppedMoving := justStoppedMoving u |}.

Definition set_location (new_location : Coord) (u : Unit) : Unit :=
  {| objectID := objectID u; cls := cls u; itemID := itemID u;
     originalHouseID := originalHouseID u; ownerTeam := ownerTeam u;
     health := health u; realX := realX u; realY := realY u;
     location := new_location; destination := destination u;
     guardPoint := guardPoint u; angle := angle u;
     drawnAngle := drawnAngle u; drawnFrame := drawnFrame u;
     numImagesY := numImagesY u; target := target u;
     primaryWeaponTimer := primaryWeaponTimer u;
     currentMaxSpeed := currentMaxSpeed u; aFlyingUnit := aFlyingUnit u;
     moving := moving u; justStoppedMoving := justStoppedMoving u |}.

Definition set_destination (new_destination : Coord) (u : Unit) : Unit :=
  {| objectID := objectID u; cls := cls u; itemID := itemID u;
     originalHouseID := originalHouseID u; ownerTeam := ownerTeam u;
     health := health u; realX := realX u; realY := realY u;
     location := location u; destination := new_destination;
     guardPoint := guardPoint u; angle := angle u;
     drawnAngle := drawnAngle u; drawnFrame := drawnFrame u;
     numImagesY := numImagesY u; target := target u;
     primaryWeaponTimer := primaryWeaponTimer u;
     currentMaxSpeed := currentMaxSpeed u; aFlyingUnit := aFlyingUnit u;
     moving := moving u; justStoppedMoving := justStoppedMoving u |}.

Definition set_heading (new_angle : FixPoint) (new_drawnAngle : Z) (u : Unit) : Unit :=
  {| objectID := objectID u; cls := cls u; itemID := itemID u;
     originalHouseID := originalHouseID u; ownerTeam := ownerTeam u;
     health := health u; realX := realX u; realY := realY u;
     location := location u; destination := destination u;
     guardPoint := guardPoint u; angle := new_angle;
     drawnAngle := new_drawnAngle; drawnFrame := drawnFrame u;
     numImagesY := numImagesY u; target := target u;
     primaryWeaponTimer := primaryWeaponTimer u;
     currentMaxSpeed := currentMaxSpeed u; aFlyingUnit := aFlyingUnit u;
     moving := moving u; justStoppedMoving := justStoppedMoving u |}.

Definition set_drawnFrame (new_drawnFrame : Z) (u : Unit) : Unit :=
  {| objectID := objectID u; cls := cls u; itemID := itemID u;
     originalHouseID := originalHouseID u; ownerTeam := ownerTeam u;
     health := health u; realX := realX u; realY := realY u;
     location := location u; destination := destination u;
     guardPoint := guardPoint u; angle := angle u;
     drawnAngle := drawnAngle u; drawnFrame := new_drawnFrame;
     numImagesY := numImagesY u; target := target u;
     primaryWeaponTimer := primaryWeaponTimer u;
     currentMaxSpeed := currentMaxSpeed u; aFlyingUnit := aFlyingUnit u;
     moving := moving u; justStoppedMoving := justStoppedMoving u |}.

Definition set_currentMaxSpeed (new_currentMaxSpeed : FixPoint) (u : Unit) : Unit :=
  {| objectID := objectID u; cls := cls u; itemID := itemID u;
     originalHouseID := originalHouseID u; ownerTeam := ownerTeam u;
     health := health u; realX := realX u; realY := realY u;
     location := location u; destination := destination u;
     guardPoint := guardPoint u; angle := angle u;
     drawnAngle := drawnAngle u; drawnFrame := drawnFrame u;
     numImagesY := numImagesY u; target := target u;
     primaryWeaponTimer := primaryWeaponTimer u;
     currentMaxSpeed := new_currentMaxSpeed; aFlyingUnit := aFlyingUnit u;
     moving := moving u; justStoppedMoving := justStoppedMoving u |}.

Definition set_moving (new_moving : bool) (new_justStoppedMoving : bool) (u : Unit) : Unit :=
  {| objectID := objectID u; cls := cls u; itemID := itemID u;
     originalHouseID := originalHouseID u; ownerTeam := ownerTeam u;
     health := health u; realX := realX u; realY := realY u;
     location := location u; destination := destination u;
     guardPoint := guardPoint u; angle := angle u;
     drawnAngle := drawnAngle u; drawnFrame := drawnFrame u;
     numImagesY := numImagesY u; target := target u;
     primaryWeaponTimer := primaryWeaponTimer u;
     currentMaxSpeed := currentMaxSpeed u; aFlyingUnit := aFlyingUnit u;
     moving := new_moving; justStoppedMoving := new_justStoppedMoving |}.

Definition set_aFlyingUnit (new_aFlyingUnit : bool) (u : Unit) : Unit :=
  {| objectID := objectID u; cls := cls u; itemID := itemID u;
     originalHouseID := originalHouseID u; ownerTeam := ownerTeam u;
     health := health u; realX := realX u; realY := realY u;
     location := location u; destination := destination u;
     guardPoint := guardPoint u; angle := angle u;
     drawnAngle := drawnAngle u; drawnFrame := drawnFrame u;
     numImagesY := numImagesY u; target := target u;
     primaryWeaponTimer := primaryWeaponTimer u;
     currentMaxSpeed := currentMaxSpeed u; aFlyingUnit := new_aFlyingUnit;
     moving := moving u; justStoppedMoving := justStoppedMoving u |}.

Definition set_kind (new_cls : UnitClass) (new_itemID : ItemID) (new_numImagesY : Z) (u : Unit) : Unit :=
  {| objectID := objectID u; cls := new_cls; itemID := new_itemID;
     originalHouseID := originalHouseID u; ownerTeam := ownerTeam u;
     health := health u; realX := realX u; realY := realY u;
     location := location u; destination := destination u;
     guardPoint := guardPoint u; angle := angle u;
     drawnAngle := drawnAngle u; drawnFrame := drawnFrame u;
     numImagesY := new_numImagesY; target := target u;
     primaryWeaponTimer := primaryWeaponTimer u;
     currentMaxSpeed := currentMaxSpeed u; aFlyingUnit := aFlyingUnit u;
     moving := moving u; justStoppedMoving := justStoppedMoving u |}.
(** Modelled from the spec: the absent [ObjectBase], as far as
    [Ornithopter::canAttack] reads a candidate: [isAFlyingUnit()],
    [getOwner()->getTeam()], [getItemID()], and [isVisible(team)] as
    [ob_visible team]. *)
Record ObjectBase : Type := mkObjectBase {
  ob_aFlyingUnit : bool;
  ob_ownerTeam : Z;
  ob_itemID : ItemID;
  ob_visible : Z -> bool
}.

(** ** The absent arithmetic

    Products, quotients and trigonometry of [FixPoint], the constant
    [FixPt_PI], and [destinationAngleRad] and [blockDistance] of [mmath.h]
    are declared but not defined in the sources: the unit code is
    parametrised by them. *)
Record MathLib : Type := mkMathLib {
  fx_mul : FixPoint -> FixPoint -> FixPoint;
  fx_div : FixPoint -> FixPoint -> FixPoint;
  fx_cos : FixPoint -> FixPoint;
  fx_sin : FixPoint -> FixPoint;
  FixPt_PI : FixPoint;
  destinationAngleRad : FixPoint -> FixPoint -> FixPoint -> FixPoint -> FixPoint;
  blockDistance : Coord -> Coord -> FixPoint
}.

(** Modelled from the spec: [UnitBase::getWeaponReloadTime], which is
    absent: an entry of the static balance table, like the turn speed. *)
Definition getWeaponReloadTime (g : Game) (u : Unit) : Z :=
  weaponreloadtime (objectData g (itemID u) (originalHouseID u)).

(** Modelled from the spec: [AirUnit::getMaxSpeed], which is absent: the
    "current max speed" that is saved and loaded. *)
Definition getMaxSpeed (u : Unit) : FixPoint := currentMaxSpeed u.

(** Modelled from the spec: [ObjectBase::setDestination], which is absent:
    "a new destination equal to the guard point is set". *)
Definition setDestination (newDestination : Coord) (u : Unit) : Unit :=
  set_destination newDestination u.

(** Modelled from the spec: [ObjectBase::unassignFromMap], which is absent:
    "[unassign(objectID, coordinate, category)] removes it", where the map
    has a tile. *)
Definition unassignFromMap (m : Map) (u : Unit) (pos : Coord) : Map :=
  if tileExists m pos then alter (unassignObject (objectID u)) pos m else m.

(** ** [AirUnit] *)

(** [AirUnit::init]: [aFlyingUnit = true] (the shadow graphic is not
    modelled). *)
Definition AirUnit_init (u : Unit) : Unit := set_aFlyingUnit true u.

(** [AirUnit::assignToMap]. *)
Definition AirUnit_assignToMap (s : Map * Unit) (pos : Coord) : Map * Unit :=
  let (m, u) := s in
  if tileExists m pos then
    let u' := if isInvalid (guardPoint u) then set_guardPoint pos u else u in
    (alter (assignAirUnit (objectID u')) pos m, u')
  else (m, u).

(** [AirUnit::checkPos]: "do nothing". *)
Definition AirUnit_checkPos (u : Unit) : Unit := u.

(** [AirUnit::canPass]. *)
Definition AirUnit_canPass (m : Map) (u : Unit) (xPos yPos : Z) : bool := true.

(** [AirUnit::navigate]. *)
Definition AirUnit_navigate (u : Unit) : Unit := set_moving true false u.

(** ** [Ornithopter] *)

(** [Ornithopter::init]; the unit counter of the house and the graphics are
    not modelled. *)
Definition Ornithopter_init (g : Game) (u : Unit) : Unit :=
  let u1 := set_kind ClsOrnithopter Unit_Ornithopter 3 u in
  set_currentMaxSpeed
    (maxspeed (objectData g (itemID u1) (originalHouseID u1))) u1.

(** [Ornithopter::checkPos].  The frame counter is computed on [Uint32]. *)
Definition Ornithopter_checkPos (L : MathLib) (g : Game) (u : Unit) : Unit :=
  let u1 := AirUnit_checkPos u in
  let u2 :=
    match target u1 with
    | None =>
        if isValid (destination u1) then
          if blockDistance L (location u1) (destination u1) <=? FixPt.fromInt 2
          then set_destination Coord_Invalid u1
          else u1
        else
          if FixPt.fromInt 17 <? blockDistance L (location u1) (guardPoint u1)
          then setDestination (guardPoint u1) u1
          else u1
    | Some _ => u1
    end in
  set_drawnFrame
    ((((gameCycleCount g + objectID u2) mod 2 ^ 32) / ORNITHOPTER_FRAMETIME)
       mod (numImagesY u2 mod 2 ^ 32))
    u2.

(** [Ornithopter::canAttack]; [None] is the null pointer. *)
Definition Ornithopter_canAttack (u : Unit) (object : option ObjectBase) : bool :=
  match object with
  | None => false
  | Some o =>
      negb (ob_aFlyingUnit o)
      && (negb (ob_ownerTeam o =? ownerTeam u)
          || bool_decide (ob_itemID o = Unit_Sandworm))
      && ob_visible o (ownerTeam u)
  end.

(** [Ornithopter::canPass]. *)
Definition Ornithopter_canPass (m : Map) (u : Unit) (xPos yPos : Z) : bool :=
  tileExists m (mkCoord xPos yPos)
  && match getTile m (mkCoord xPos yPos) with
     | Some t => negb (hasAnAirUnit t)
     | None => false
     end.

(** ** Virtual dispatch *)

Definition checkPos (L : MathLib) (g : Game) (u : Unit) : Unit :=
  match cls u with
  | ClsAirUnit => AirUnit_checkPos u
  | ClsOrnithopter => Ornithopter_checkPos L g u
  end.

Definition canPass (m : Map) (u : Unit) (xPos yPos : Z) : bool :=
  match cls u with
  | ClsAirUnit => AirUnit_canPass m u xPos yPos
  | ClsOrnithopter => Ornithopter_canPass m u xPos yPos
  end.

(** ** Moving *)

(** The body of [AirUnit::move] after the two increments [dx] and [dy] of
    the position have been computed: the position is advanced, the tile
    coordinate recomputed, the unit re-registered when it changed, and the
    [checkPos] of the unit's class, [checkPos_v], called. *)
Definition AirUnit_moveBy (checkPos_v : Unit -> Unit) (dx dy : FixPoint)
    (s : Map * Unit) : Map * Unit :=
  let (m, u) := s in
  let u1 := set_real (realX u + dx) (realY u + dy) u in
  let newLocation :=
    mkCoord (Z.quot (FixPt.lround (realX u1)) TILESIZE)
            (Z.quot (FixPt.lround (realY u1)) TILESIZE) in
  let (m2, u2) :=
    if bool_decide (newLocation <> location u1) then
      let m1 := unassignFromMap m u1 (location u1) in
      let (m2, u2) := AirUnit_assignToMap (m1, u1) newLocation in
      (m2, set_location newLocation u2)
    else (m, u1) in
  (m2, checkPos_v u2).

(** [AirUnit::move]. *)
Definition AirUnit_move (L : MathLib) (g : Game) (s : Map * Unit) : Map * Unit :=
  let u := snd s in
  let angleRad :=
    fx_div L (fx_mul L (angle u) (FixPt.shl (FixPt_PI L) 1)) (FixPt.fromInt 8) in
  let speed := getMaxSpeed u in
  AirUnit_moveBy (checkPos L g)
    (fx_mul L (fx_cos L angleRad) speed)
    (fx_mul L (- fx_sin L angleRad) speed)
    s.

(** A run of move steps, one per tick; the game state of each tick is
    given. *)
Definition AirUnit_moves (L : MathLib) (ticks : list Game) (s : Map * Unit)
    : Map * Unit :=
  fold_left (fun st g => AirUnit_move L g st) ticks s.

(** ** Turning *)

(** The two angular distances that [AirUnit::turn] computes from the
    heading [angle] and [destinationAngle]. *)
Definition turn_angleLeft (angle destinationAngle : FixPoint) : FixPoint :=
  if destinationAngle <? angle
  then Z.abs (FixPt.fromInt NUM_ANGLES - angle) + destinationAngle
  else if angle <? destinationAngle then destinationAngle - angle
  else 0.

Definition turn_angleRight (angle destinationAngle : FixPoint) : FixPoint :=
  if destinationAngle <? angle then angle - destinationAngle
  else if angle <? destinationAngle
  then Z.abs (FixPt.fromInt NUM_ANGLES - destinationAngle) + angle
  else 0.

(** The first branch of [AirUnit::turn] after [destinationAngle] has been
    computed; [turnSpeed] is the table entry. *)
Definition AirUnit_turnToward (turnSpeed destinationAngle : FixPoint)
    (u : Unit) : Unit :=
  let angleLeft := turn_angleLeft (angle u) destinationAngle in
  let angleRight := turn_angleRight (angle u) destinationAngle in
  if angleLeft <=? angleRight then
    let a := angle u + Z.min turnSpeed angleLeft in
    let a' := if FixPt.fromInt NUM_ANGLES <=? a
              then a - FixPt.fromInt NUM_ANGLES else a in
    set_heading a' (Z.rem (FixPt.lround a') NUM_ANGLES) u
  else
    let a := angle u - Z.min turnSpeed angleRight in
    let a' := if a <? 0 then a + FixPt.fromInt NUM_ANGLES else a in
    set_heading a' (Z.rem (FixPt.lround a') NUM_ANGLES) u.

(** The heading toward the destination, in [NUM_ANGLES]-ths of a turn. *)
Definition destinationAngleOf (L : MathLib) (u : Unit) : FixPoint :=
  fx_div L
    (fx_mul L
       (destinationAngleRad L (realX u) (realY u)
          (FixPt.fromInt (coord_x (destination u) * TILESIZE + Z.quot TILESIZE 2))
          (FixPt.fromInt (coord_y (destination u) * TILESIZE + Z.quot TILESIZE 2)))
       (FixPt.fromInt 8))
    (FixPt.shl (FixPt_PI L) 1).

(** [AirUnit::turn]. *)
Definition AirUnit_turn (L : MathLib) (g : Game) (u : Unit) : Unit :=
  let turnSpeed := turnspeed (objectData g (itemID u) (originalHouseID u)) in
  if isValid (destination u)
     && (primaryWeaponTimer u <=? Z.quot (getWeaponReloadTime g u) 3)
  then AirUnit_turnToward turnSpeed (destinationAngleOf L u) u
  else
    let a := angle u - fx_div L turnSpeed (FixPt.fromInt 8) in
    let a' := if a <? 0 then a + FixPt.fromInt NUM_ANGLES else a in
    set_heading a' (Z.rem (FixPt.lround a') NUM_ANGLES) u.

(** ** Persistence streams *)

(** [OutputStream] and [InputStream] are absent: "ordered binary record per
    unit ... written with a stable encoding (little-endian fixed-point
    serialization) and read back in identical order".  A stream is its list
    of bytes; a read from a stream that is too short fails. *)

(** Modelled from the spec: the little-endian bytes of an integer, for the
    absent stream classes. *)
Fixpoint le_bytes (n : nat) (v : Z) : list Z :=
  match n with
  | O => []
  | S k => v mod 256 :: le_bytes k (v / 256)
  end.

(** Modelled from the spec: the integer of little-endian bytes. *)
Fixpoint le_value (bs : list Z) : Z :=
  match bs with
  | [] => 0
  | b :: rest => b + 256 * le_value rest
  end.

(** Modelled from the spec: a read from the absent [InputStream]: the value
    and the rest of the stream, or a failure. *)
Definition InputStream (A : Type) : Type := list Z -> option (A * list Z).

Definition ret {A : Type} (a : A) : InputStream A := fun s => Some (a, s).

Definition bind {A B : Type} (r : InputStream A) (k : A -> InputStream B)
    : InputStream B :=
  fun s => match r s with
           | Some (a, s') => k a s'
           | None => None
           end.

Notation "'let*' x ':=' r 'in' k" := (bind r (fun x => k))
  (at level 10, x name, r at level 100, k at level 200).

(** Modelled from the spec: reading [n] bytes of the absent [InputStream]. *)
Definition readBytes (n : nat) : InputStream Z :=
  fun s => if (length s <? n)%nat then None
           else Some (le_value (take n s), drop n s).

(** The two's complement value of a [bits]-bit word. *)
Definition toSigned (bits : Z) (w : Z) : Z :=
  if w <? 2 ^ (bits - 1) then w else w - 2 ^ bits.

(** Modelled from the spec: the primitives of the absent stream classes,
    each value in little-endian bytes of its machine width. *)
Definition writeUint32 (x : Z) : list Z := le_bytes 4 (x mod 2 ^ 32).

Definition readUint32 : InputStream Z := readBytes 4.

Definition writeSint32 (x : Z) : list Z := le_bytes 4 (x mod 2 ^ 32).

Definition readSint32 : InputStream Z :=
  let* w := readBytes 4 in ret (toSigned 32 w).

(** Modelled from the spec: [writeFixPoint] and [readFixPoint] of the absent
    stream classes, "little-endian fixed-point serialization" of the 64-bit
    raw value. *)
Definition writeFixPoint (x : FixPoint) : list Z := le_bytes 8 (x mod 2 ^ 64).

Definition readFixPoint : InputStream FixPoint :=
  let* w := readBytes 8 in ret (toSigned 64 w).

Definition writeBool (b : bool) : list Z := [if b then 1 else 0].

Definition readBool : InputStream bool :=
  let* w := readBytes 1 in ret (negb (w =? 0)).

Definition writeCoord (c : Coord) : list Z :=
  writeSint32 (coord_x c) ++ writeSint32 (coord_y c).

Definition readCoord : InputStream Coord :=
  let* cx := readSint32 in
  let* cy := readSint32 in
  ret (mkCoord cx cy).

Definition writeTarget (t : option Z) : list Z :=
  match t with
  | Some i => writeBool true ++ writeUint32 i
  | None => writeBool false
  end.

Definition readTarget : InputStream (option Z) :=
  let* b := readBool in
  if b then (let* i := readUint32 in ret (Some i)) else ret None.

(** Modelled from the spec: [UnitBase::save], which is absent: "base-class
    fields first", "[save] writes the same fields in matching order".  The members that [init] sets
    ([itemID], [aFlyingUnit], [numImagesY], the class) are not in the
    stream; the stream constructor leaves them at their defaults. *)
Definition UnitBase_save (u : Unit) (stream : list Z) : list Z :=
  stream
  ++ writeUint32 (objectID u)
  ++ writeUint32 (originalHouseID u)
  ++ writeUint32 (ownerTeam u)
  ++ writeFixPoint (health u)
  ++ writeFixPoint (realX u)
  ++ writeFixPoint (realY u)
  ++ writeCoord (location u)
  ++ writeCoord (destination u)
  ++ writeCoord (guardPoint u)
  ++ writeFixPoint (angle u)
  ++ writeSint32 (drawnAngle u)
  ++ writeSint32 (drawnFrame u)
  ++ writeTarget (target u)
  ++ writeSint32 (primaryWeaponTimer u)
  ++ writeBool (moving u)
  ++ writeBool (justStoppedMoving u).

(** Modelled from the spec: the stream constructor of [UnitBase], which is
    absent: it reads the members in the order in which [UnitBase_save]
    writes them. *)
Definition UnitBase_load : InputStream Unit :=
  let* objectID := readUint32 in
  let* originalHouseID := readUint32 in
  let* ownerTeam := readUint32 in
  let* health := readFixPoint in
  let* realX := readFixPoint in
  let* realY := readFixPoint in
  let* location := readCoord in
  let* destination := readCoord in
  let* guardPoint := readCoord in
  let* angle := readFixPoint in
  let* drawnAngle := readSint32 in
  let* drawnFrame := readSint32 in
  let* target := readTarget in
  let* primaryWeaponTimer := readSint32 in
  let* moving := readBool in
  let* justStoppedMoving := readBool in
  ret {| objectID := objectID; cls := ClsAirUnit; itemID := Item_Other 0;
         originalHouseID := originalHouseID; ownerTeam := ownerTeam;
         health := health; realX := realX; realY := realY;
         location := location; destination := destination;
         guardPoint := guardPoint; angle := angle;
         drawnAngle := drawnAngle; drawnFrame := drawnFrame;
         numImagesY := 0; target := target;
         primaryWeaponTimer := primaryWeaponTimer;
         currentMaxSpeed := 0; aFlyingUnit := false;
         moving := moving; justStoppedMoving := justStoppedMoving |}.

(** [AirUnit::save]. *)
Definition AirUnit_save (u : Unit) (stream : list Z) : list Z :=
  UnitBase_save u stream ++ writeFixPoint (currentMaxSpeed u).

(** [AirUnit::AirUnit(InputStream&)]. *)
Definition AirUnit_load : InputStream Unit :=
  let* u := UnitBase_load in
  let u1 := AirUnit_init u in
  let* speed := readFixPoint in
  ret (set_currentMaxSpeed speed u1).

(** [Ornithopter::Ornithopter(InputStream&)]. *)
Definition Ornithopter_load (g : Game) : InputStream Unit :=
  let* u := AirUnit_load in
  ret (Ornithopter_init g u).

(** The ranges of the machine types of the serialised members. *)
Definition isUint32 (x : Z) : Prop := 0 <= x < 2 ^ 32.
Definition isSint32 (x : Z) : Prop := - 2 ^ 31 <= x < 2 ^ 31.
Definition isFixPoint (x : Z) : Prop := - 2 ^ 63 <= x < 2 ^ 63.
Definition isCoord (c : Coord) : Prop :=
  isSint32 (coord_x c) /\ isSint32 (coord_y c).

Record wellTyped (u : Unit) : Prop := mkWellTyped {
  wt_objectID : isUint32 (objectID u);
  wt_originalHouseID : isUint32 (originalHouseID u);
  wt_ownerTeam : isUint32 (ownerTeam u);
  wt_health : isFixPoint (health u);
  wt_realX : isFixPoint (realX u);
  wt_realY : isFixPoint (realY u);
  wt_location : isCoord (location u);
  wt_destination : isCoord (destination u);
  wt_guardPoint : isCoord (guardPoint u);
  wt_angle : isFixPoint (angle u);
  wt_drawnAngle : isSint32 (drawnAngle u);
  wt_drawnFrame : isSint32 (drawnFrame u);
  wt_target : forall i, target u = Some i -> isUint32 i;
  wt_primaryWeaponTimer : isSint32 (primaryWeaponTimer u);
  wt_currentMaxSpeed : isFixPoint (currentMaxSpeed u)
}.

(** ** Occupancy of the air slots *)

(** The tiles in whose air-unit list the object [objID] is registered. *)
Definition airTilesOf (m : Map) (objID : Z) : gset Coord :=
  dom (filter (fun kv => objID ∈ assignedAirUnitList (snd kv)) m).

(** The unit is registered in the tile of its [location] if the map has it,
    and in no other tile. *)
Definition registeredAtLocation (s : Map * Unit) : Prop :=
  airTilesOf (fst s) (objectID (snd s)) =
    if tileExists (fst s) (location (snd s)) then {[ location (snd s) ]} else ∅.

(** ** Distances on a ring of headings *)

(** The angular distance of two headings on a ring of circumference [n]. *)
Definition ringDist (n a b : Z) : Z :=
  Z.min ((a - b) mod n) (n - (a - b) mod n).

(** The tile that the specification derives from a position,
    [floor(real / TILESIZE)]. *)
Definition spec_tileOf (real : FixPoint) : Z :=
  real / (TILESIZE * FixPt.one).

(** ** Derived notions *)

(** The tile coordinate that [AirUnit::move] computes from the position. *)
Definition tileOfPosition (u : Unit) : Coord :=
  mkCoord (Z.quot (FixPt.lround (realX u)) TILESIZE)
          (Z.quot (FixPt.lround (realY u)) TILESIZE).

(** The state that the specification expects a load to restore: position,
    heading, health and destination. *)
Definition sameState (u u' : Unit) : Prop :=
  realX u' = realX u /\ realY u' = realY u /\ location u' = location u /\
  angle u' = angle u /\ drawnAngle u' = drawnAngle u /\
  health u' = health u /\ destination u' = destination u.

(** The unit as the stream constructor of [UnitBase] builds it from the
    saved members of [u], before any [init] has run. *)
Definition asLoadedBase (u : Unit) : Unit :=
  set_currentMaxSpeed 0
    (set_aFlyingUnit false (set_kind ClsAirUnit (Item_Other 0) 0 u)).

(** ** A library instance for the examples

    Scaled-integer product and quotient, the first Taylor polynomials of
    cosine and sine, a destination that lies due east (angle 0), and the
    Chebyshev distance in tiles.  The theorems hold for every library; this
    one only serves to run the model on concrete units. *)
Definition sampleLib : MathLib :=
  {| fx_mul := fun a b => (a * b) / FixPt.one;
     fx_div := fun a b => Z.quot (a * FixPt.one) b;
     fx_cos := fun a => FixPt.one - ((a * a) / FixPt.one) / 2;
     fx_sin := fun a => a;
     FixPt_PI := 13493037705;
     destinationAngleRad := fun _ _ _ _ => 0;
     blockDistance := fun p q =>
       FixPt.fromInt (Z.max (Z.abs (coord_x p - coord_x q))
                            (Z.abs (coord_y p - coord_y q))) |}.

(** A balance table with the same entry for every item and house. *)
Definition sampleGame (speed turn : FixPoint) (reload cycle : Z) : Game :=
  {| objectData := fun _ _ =>
       {| maxspeed := speed; turnspeed := turn; weaponreloadtime := reload |};
     gameCycleCount := cycle |}.

(** An air unit of class [c] with object id 7 on tile [(0, 0)], at the
    position [(rx, ry)], with heading [a], destination [dest], guard point
    [(0, 0)] and no target. *)
Definition sampleUnit (c : UnitClass) (rx ry a : FixPoint) (dest : Coord) : Unit :=
  {| objectID := 7; cls := c;
     itemID := match c with ClsOrnithopter => Unit_Ornithopter | ClsAirUnit => Item_Other 20 end;
     originalHouseID := 1; ownerTeam := 1; health := FixPt.fromInt 100;
     realX := rx; realY := ry; location := mkCoord 0 0;
     destination := dest; guardPoint := mkCoord 0 0;
     angle := a; drawnAngle := 0; drawnFrame := 0; numImagesY := 3;
     target := None; primaryWeaponTimer := 0;
     currentMaxSpeed := FixPt.fromInt 2; aFlyingUnit := true;
     moving := true; justStoppedMoving := false |}.

(** A map of one tile, [(0, 0)], in which object 7 is registered. *)
Definition sampleMap : Map :=
  {[ mkCoord 0 0 := {| assignedAirUnitList := [7];
                       assignedNonInfantryGroundObjectList := [] |} ]}.

(** The balance table of the examples: speed 2, turn speed 1, no reload
    time. *)
Definition game1 : Game := sampleGame (FixPt.fromInt 2) (FixPt.fromInt 1) 0 0.

(** A unit in the middle of tile [(0, 0)] with heading [a] whose destination
    is the tile [(5, 0)], due east of it. *)
Definition unitHeading (a : Z) : Unit :=
  sampleUnit ClsAirUnit (FixPt.fromInt 32) (FixPt.fromInt 32) (FixPt.fromInt a)
             (mkCoord 5 0).

(** A unit at the position [(rx, ry)] with heading 0, registered on the
    one-tile map [sampleMap]. *)
Definition unitAt (rx ry : FixPoint) : Map * Unit :=
  (sampleMap, sampleUnit ClsAirUnit rx ry 0 (mkCoord 5 0)).

(** An ornithopter on tile [(0, 0)] with destination [dest]. *)
Definition ornithopterTo (dest : Coord) : Unit :=
  sampleUnit ClsOrnithopter (FixPt.fromInt 32) (FixPt.fromInt 32) 0 dest.

(** A visible sandworm of the observer's own team 1. *)
Definition ownSandworm : ObjectBase :=
  {| ob_aFlyingUnit := false; ob_ownerTeam := 1; ob_itemID := Unit_Sandworm;
     ob_visible := fun _ => true |}.

(** A map whose only tile, [(0, 0)], is empty. *)
Definition emptyTileMap : Map :=
  {[ mkCoord 0 0 := {| assignedAirUnitList := [];
                       assignedNonInfantryGroundObjectList := [] |} ]}.

(** An ornithopter whose current max speed, 5, is not the table's 2. *)
Definition fastOrnithopter : Unit :=
  set_currentMaxSpeed (FixPt.fromInt 5) (ornithopterTo (mkCoord 5 0)).

(** The position 61.75. *)
Definition almost62 : FixPoint := FixPt.fromInt 61 + 3 * (FixPt.one / 4).

(** A visible tank-like ground object of team 2. *)
Definition enemyGroundUnit : ObjectBase :=
  {| ob_aFlyingUnit := false; ob_ownerTeam := 2; ob_itemID := Item_Other 34;
     ob_visible := fun _ => true |}.

(** ** Further functions of [mmath.h] and of the unit classes *)

(** [inline int angleDiff(int angle1, int angle2)]; the [int]s are taken
    without overflow. *)
Definition angleDiff (angle1 angle2 : Z) : Z :=
  let diff := Z.abs (angle1 - angle2) in
  Z.min diff (NUM_ANGLES - diff).

(** [inline FixPoint RadToDeg256(FixPoint angleRad)]. *)
Definition RadToDeg256 (L : MathLib) (angleRad : FixPoint) : FixPoint :=
  fx_div L (FixPt.shl angleRad 7) (FixPt_PI L).

(** [inline FixPoint Deg256ToRad(FixPoint angle)]. *)
Definition Deg256ToRad (L : MathLib) (angle : FixPoint) : FixPoint :=
  FixPt.shr (fx_mul L angle (FixPt_PI L)) 7.

(** [inline int destinationDrawnAngle(const Coord& p1, const Coord& p2)];
    [destinationAngleRadOf] is the overload of [destinationAngleRad] on two
    coordinates, which [mmath.h] declares and does not define. *)
Definition destinationDrawnAngle (L : MathLib)
    (destinationAngleRadOf : Coord -> Coord -> FixPoint) (p1 p2 : Coord) : Z :=
  angleToDrawnAngle (RadToDeg256 L (destinationAngleRadOf p1 p2)).

Definition set_health (new_health : FixPoint) (u : Unit) : Unit :=
  {| objectID := objectID u; cls := cls u; itemID := itemID u;
     originalHouseID := originalHouseID u; ownerTeam := ownerTeam u;
     health := new_health; realX := realX u; realY := realY u;
     location := location u; destination := destination u;
     guardPoint := guardPoint u; angle := angle u;
     drawnAngle := drawnAngle u; drawnFrame := drawnFrame u;
     numImagesY := numImagesY u; target := target u;
     primaryWeaponTimer := primaryWeaponTimer u;
     currentMaxSpeed := currentMaxSpeed u; aFlyingUnit := aFlyingUnit u;
     moving := moving u; justStoppedMoving := justStoppedMoving u |}.

(** [AirUnit::AirUnit(House* newOwner)]; [base] is the unit as the absent
    constructor of [UnitBase] leaves it. *)
Definition AirUnit_new (base : Unit) : Unit :=
  set_currentMaxSpeed (FixPt.fromInt 2) (AirUnit_init base).

(** [Ornithopter::Ornithopter(House* newOwner)]; [maxHealth] is the value of
    the absent [getMaxHealth()], and the absent [setHealth] is taken to
    assign it. *)
Definition Ornithopter_new (g : Game) (maxHealth : FixPoint) (base : Unit) : Unit :=
  set_health maxHealth (Ornithopter_init g (AirUnit_new base)).

(** What [Ornithopter::init] establishes: the class and item, the three rows
    of images, the flying flag of [AirUnit::init], and the speed of the
    balance table. *)
Definition ornithopterForm (g : Game) (u : Unit) : Prop :=
  cls u = ClsOrnithopter /\ itemID u = Unit_Ornithopter /\
  numImagesY u = 3 /\ aFlyingUnit u = true /\
  currentMaxSpeed u = maxspeed (objectData g Unit_Ornithopter (originalHouseID u)).

(** The game [g] at the cycle [cycle]. *)
Definition atCycle (g : Game) (cycle : Z) : Game :=
  {| objectData := objectData g; gameCycleCount := cycle |}.

(** Whether the object [objID] is in the air-unit list of the tile at
    [pos]. *)
Definition inAirListAt (m : Map) (objID : Z) (pos : Coord) : Prop :=
  exists t, getTile m pos = Some t /\ objID ∈ assignedAirUnitList t.

(** The angle [a] is one whose shifted value [a >> 5] lies exactly halfway
    between two integers. *)
Definition exactHalf (a : FixPoint) : Prop :=
  FixPt.shr a 5 mod FixPt.one = FixPt.half.

(** [angleToDrawnAngle] with another rounding [rnd] in the place of
    [lround]. *)
Definition angleToDrawnAngleWith (rnd : FixPoint -> Z) (angle : FixPoint) : Z :=
  Z.land (rnd (FixPt.shr angle 5)) 7.

(** * Properties *)

(** ** Fixed-point rounding and [angleToDrawnAngle] *)

Lemma one_eq : FixPt.one = 4294967296.
Proof. reflexivity. Qed.

Lemma half_eq : FixPt.half = 2147483648.
Proof. reflexivity. Qed.

Lemma lround_nonneg (x : FixPoint) :
  0 <= x -> FixPt.lround x = (x + FixPt.half) / FixPt.one.
Proof.
  intros Hx. unfold FixPt.lround.
  destruct (Z.leb_spec 0 x) as [_|Hlt]; [|lia].
  rewrite one_eq, half_eq. apply Z.quot_div_nonneg; lia.
Qed.

Lemma lround_fromInt (n : Z) : FixPt.lround (FixPt.fromInt n) = n.
Proof.
  unfold FixPt.lround, FixPt.fromInt. rewrite one_eq, half_eq.
  destruct (Z.leb_spec 0 (n * 4294967296)) as [Hn|Hn].
  - rewrite Z.quot_div_nonneg by lia.
    rewrite Z.add_comm, Z.div_add by lia. reflexivity.
  - apply Z.opp_inj. rewrite <- Z.quot_opp_l by lia.
    rewrite Z.quot_div_nonneg by lia.
    replace (- (n * 4294967296 - 2147483648))
      with (2147483648 + (- n) * 4294967296) by lia.
    rewrite Z.div_add by lia. reflexivity.
Qed.

Lemma shr5_div (a : FixPoint) : FixPt.shr a 5 = a / 32.
Proof. unfold FixPt.shr. rewrite Z.shiftr_div_pow2 by lia. reflexivity. Qed.

Lemma land7_mod8 (x : Z) : Z.land x 7 = x mod 8.
Proof. change 7 with (Z.ones 3). rewrite Z.land_ones by lia. reflexivity. Qed.

Lemma angleToDrawnAngle_range (a : FixPoint) : 0 <= angleToDrawnAngle a < 8.
Proof.
  unfold angleToDrawnAngle. rewrite land7_mod8. apply Z.mod_pos_bound. lia.
Qed.

Lemma angleToDrawnAngle_nonneg_eq (a : FixPoint) :
  0 <= a -> angleToDrawnAngle a = spec_drawnAngle a.
Proof.
  intros Ha. unfold angleToDrawnAngle, spec_drawnAngle.
  rewrite land7_mod8, shr5_div.
  rewrite lround_nonneg by (apply Z.div_pos; lia).
  rewrite one_eq, half_eq. f_equal.
  replace (a + 16 * 4294967296) with (a + 2147483648 * 32) by lia.
  rewrite <- (Z.div_add a 2147483648 32) by lia.
  rewrite Z.div_div by lia. reflexivity.
Qed.

Lemma spec_drawnAngle_wrap (a : FixPoint) :
  spec_drawnAngle (a + FixPt.fromInt 256) = spec_drawnAngle a.
Proof.
  unfold spec_drawnAngle, FixPt.fromInt. rewrite one_eq.
  replace (a + 256 * 4294967296 + 16 * 4294967296)
    with (a + 16 * 4294967296 + 8 * (32 * 4294967296)) by lia.
  rewrite Z.div_add by lia.
  replace ((a + 16 * 4294967296) / (32 * 4294967296) + 8)
    with ((a + 16 * 4294967296) / (32 * 4294967296) + 1 * 8) by lia.
  apply Z.mod_add. lia.
Qed.

Lemma lround_split (x : FixPoint) :
  FixPt.lround x
  = (x + FixPt.half) / FixPt.one
    - (if (x <? 0) && (x mod FixPt.one =? FixPt.half) then 1 else 0).
Proof.
  unfold FixPt.lround. rewrite one_eq, half_eq.
  pose proof (Z.div_mod x 4294967296 ltac:(lia)) as Hdm.
  pose proof (Z.mod_pos_bound x 4294967296 ltac:(lia)) as Hr.
  set (q := x / 4294967296) in *. set (r := x mod 4294967296) in *.
  destruct (Z.leb_spec 0 x) as [Hpos|Hneg].
  - destruct (Z.ltb_spec x 0); [lia|]. cbn [andb].
    rewrite Z.quot_div_nonneg by lia. lia.
  - destruct (Z.ltb_spec x 0); [|lia]. cbn [andb].
    replace (x - 2147483648) with (- (2147483648 - x)) by lia.
    rewrite Z.quot_opp_l by lia. rewrite Z.quot_div_nonneg by lia.
    destruct (Z.eqb_spec r 2147483648) as [Heq|Hne].
    + rewrite <- (Z.div_unique (2147483648 - x) 4294967296 (- q) 0) by lia.
      rewrite <- (Z.div_unique (x + 2147483648) 4294967296 (q + 1) 0) by lia.
      lia.
    + destruct (Z.lt_ge_cases r 2147483648) as [Hlt|Hge].
      * rewrite <- (Z.div_unique (2147483648 - x) 4294967296 (- q) (2147483648 - r)) by lia.
        rewrite <- (Z.div_unique (x + 2147483648) 4294967296 q (r + 2147483648)) by lia.
        lia.
      * rewrite <- (Z.div_unique (2147483648 - x) 4294967296 (- q - 1)
                      (4294967296 + 2147483648 - r)) by lia.
        rewrite <- (Z.div_unique (x + 2147483648) 4294967296 (q + 1) (r - 2147483648)) by lia.
        lia.
Qed.





Lemma lround_nearest (x : FixPoint) :
  2 * Z.abs (FixPt.lround x * FixPt.one - x) <= FixPt.one.
Proof.
  rewrite lround_split. rewrite one_eq, half_eq.
  pose proof (Z.div_mod (x + 2147483648) 4294967296 ltac:(lia)) as Hh.
  pose proof (Z.mod_pos_bound (x + 2147483648) 4294967296 ltac:(lia)) as Hrh.
  pose proof (Z.div_mod x 4294967296 ltac:(lia)) as Hx.
  pose proof (Z.mod_pos_bound x 4294967296 ltac:(lia)) as Hrx.
  destruct (x <? 0); cbn [andb]; [|lia].
  destruct (Z.eqb_spec (x mod 4294967296) 2147483648); lia.
Qed.

(** Off the exact halves every rounding to nearest agrees with [lround], so
    that the drawn angle does not depend on how halves are rounded. *)
Lemma nearest_off_half (rnd : FixPoint -> Z) (a : FixPoint) :
  (forall x, 2 * Z.abs (rnd x * FixPt.one - x) <= FixPt.one) ->
  ~ exactHalf a ->
  angleToDrawnAngleWith rnd a = angleToDrawnAngle a.
Proof.
  intros Hrnd Hoff. unfold angleToDrawnAngleWith, angleToDrawnAngle, exactHalf in *.
  f_equal. set (x := FixPt.shr a 5) in *.
  pose proof (Hrnd x) as H1. pose proof (lround_nearest x) as H2.
  rewrite one_eq, half_eq in *.
  pose proof (Z.div_mod x 4294967296 ltac:(lia)) as Hx.
  pose proof (Z.mod_pos_bound x 4294967296 ltac:(lia)) as Hrx.
  lia.
Qed.




(** ** One turn step *)

Lemma angle_set_heading a da u : angle (set_heading a da u) = a.
Proof. reflexivity. Qed.

Lemma mod_ring (n x : Z) :
  - n < x < n -> x mod n = if x <? 0 then x + n else x.
Proof.
  intros Hx. destruct (Z.ltb_spec x 0).
  - symmetry. apply (Z.mod_unique_pos _ _ (-1)); lia.
  - apply Z.mod_small; lia.
Qed.

Lemma NUM_ANGLES_fix : FixPt.fromInt NUM_ANGLES = 34359738368.
Proof. reflexivity. Qed.

(** Under the guard of [AirUnit::turn] the unit turns toward the heading of
    its destination. *)
Lemma AirUnit_turn_toward (L : MathLib) (g : Game) (u : Unit) :
  isValid (destination u) = true ->
  primaryWeaponTimer u <= Z.quot (getWeaponReloadTime g u) 3 ->
  AirUnit_turn L g u =
    AirUnit_turnToward (turnspeed (objectData g (itemID u) (originalHouseID u)))
                       (destinationAngleOf L u) u.
Proof.
  intros Hv Ht. unfold AirUnit_turn. rewrite Hv.
  destruct (Z.leb_spec (primaryWeaponTimer u) (Z.quot (getWeaponReloadTime g u) 3));
    [reflexivity | lia].
Qed.

Lemma turnToward_tie (t d : FixPoint) (u : Unit) :
  turn_angleLeft (angle u) d = turn_angleRight (angle u) d ->
  angle (AirUnit_turnToward t d u) =
    let a := angle u + Z.min t (turn_angleLeft (angle u) d) in
    if FixPt.fromInt NUM_ANGLES <=? a then a - FixPt.fromInt NUM_ANGLES else a.
Proof.
  intros Htie. unfold AirUnit_turnToward. rewrite <- Htie.
  rewrite Z.leb_refl. apply angle_set_heading.
Qed.

Lemma turnToward_distance (t d : FixPoint) (u : Unit) :
  0 <= angle u < FixPt.fromInt NUM_ANGLES ->
  0 <= d < FixPt.fromInt NUM_ANGLES ->
  0 <= t ->
  ringDist (FixPt.fromInt NUM_ANGLES) (angle (AirUnit_turnToward t d u)) d
  = Z.max 0 (ringDist (FixPt.fromInt NUM_ANGLES) (angle u) d - t).
Proof.
  rewrite NUM_ANGLES_fix. intros Hh Hd Ht.
  unfold AirUnit_turnToward, turn_angleLeft, turn_angleRight, ringDist.
  rewrite NUM_ANGLES_fix.
  rewrite (mod_ring _ (angle u - d)) by lia.
  destruct (Z.ltb_spec d (angle u)); [|destruct (Z.ltb_spec (angle u) d)];
    match goal with |- context [?a <=? ?b] => destruct (Z.leb_spec a b) end;
    rewrite angle_set_heading;
    repeat match goal with
           | |- context [?a <=? ?b] => destruct (Z.leb_spec a b)
           | |- context [?a <? ?b] => destruct (Z.ltb_spec a b)
           end;
    try lia;
    match goal with
    | |- context [?x mod 34359738368] => rewrite (mod_ring _ x) by lia
    end;
    repeat match goal with
           | |- context [?a <? ?b] => destruct (Z.ltb_spec a b)
           end;
    lia.
Qed.

(** C1, as the code has it: in a turn step toward a valid destination, an
    exact tie of [angleLeft] and [angleRight] takes the first branch, the
    one of [angleLeft <= angleRight]: the heading grows by
    [min(turnspeed, angleLeft)] and is reduced by [NUM_ANGLES] when it
    reaches it. *)
Theorem AirUnit_turn_tie_left (L : MathLib) (g : Game) (u : Unit) :
  isValid (destination u) = true ->
  primaryWeaponTimer u <= Z.quot (getWeaponReloadTime g u) 3 ->
  turn_angleLeft (angle u) (destinationAngleOf L u)
    = turn_angleRight (angle u) (destinationAngleOf L u) ->
  angle (AirUnit_turn L g u) =
    let a := angle u
             + Z.min (turnspeed (objectData g (itemID u) (originalHouseID u)))
                     (turn_angleLeft (angle u) (destinationAngleOf L u)) in
    if FixPt.fromInt NUM_ANGLES <=? a then a - FixPt.fromInt NUM_ANGLES else a.
Proof.
  intros Hv Ht Htie. rewrite AirUnit_turn_toward by assumption.
  apply turnToward_tie. exact Htie.
Qed.

(** C3, as the code has it: for a heading and a destination heading in
    [[0, NUM_ANGLES)] and a turn speed [t >= 0], one turn step toward the
    destination leaves the angular distance [max(0, distance - t)] on the
    ring of [NUM_ANGLES] headings, which is at most the distance before. *)
Theorem AirUnit_turn_no_overshoot (L : MathLib) (g : Game) (u : Unit) :
  isValid (destination u) = true ->
  primaryWeaponTimer u <= Z.quot (getWeaponReloadTime g u) 3 ->
  0 <= angle u < FixPt.fromInt NUM_ANGLES ->
  0 <= destinationAngleOf L u < FixPt.fromInt NUM_ANGLES ->
  0 <= turnspeed (objectData g (itemID u) (originalHouseID u)) ->
  ringDist (FixPt.fromInt NUM_ANGLES) (angle (AirUnit_turn L g u))
           (destinationAngleOf L u)
  = Z.max 0 (ringDist (FixPt.fromInt NUM_ANGLES) (angle u) (destinationAngleOf L u)
             - turnspeed (objectData g (itemID u) (originalHouseID u)))
  /\ ringDist (FixPt.fromInt NUM_ANGLES) (angle (AirUnit_turn L g u))
              (destinationAngleOf L u)
     <= ringDist (FixPt.fromInt NUM_ANGLES) (angle u) (destinationAngleOf L u).
Proof.
  intros Hv Ht Hh Hd Hts. rewrite AirUnit_turn_toward by assumption.
  rewrite turnToward_distance by assumption.
  assert (0 <= ringDist (FixPt.fromInt NUM_ANGLES) (angle u) (destinationAngleOf L u)).
  { unfold ringDist. rewrite NUM_ANGLES_fix.
    pose proof (Z.mod_pos_bound (angle u - destinationAngleOf L u) 34359738368).
    lia. }
  lia.
Qed.

Lemma AirUnit_turn_tie_left_witness :
  isValid (destination (unitHeading 4)) = true /\
  turn_angleLeft (angle (unitHeading 4)) (destinationAngleOf sampleLib (unitHeading 4))
    = turn_angleRight (angle (unitHeading 4)) (destinationAngleOf sampleLib (unitHeading 4)) /\
  angle (AirUnit_turn sampleLib game1 (unitHeading 4)) = FixPt.fromInt 5.
Proof.
  split; [reflexivity|]. split; [reflexivity|].
  rewrite (AirUnit_turn_tie_left sampleLib game1 (unitHeading 4)).
  - reflexivity.
  - reflexivity.
  - vm_compute. discriminate.
  - reflexivity.
Defined.

(** C1, as stated, fails for a unit with heading 4 whose destination lies
    at heading 0: [angleLeft] and [angleRight] are both 4, and with turn
    speed 1 the heading becomes 5: it grows. *)
Lemma AirUnit_turn_tie_not_right :
  isValid (destination (unitHeading 4)) = true /\
  destinationAngleOf sampleLib (unitHeading 4) = 0 /\
  turn_angleLeft (angle (unitHeading 4)) 0 = FixPt.fromInt 4 /\
  turn_angleRight (angle (unitHeading 4)) 0 = FixPt.fromInt 4 /\
  angle (AirUnit_turn sampleLib game1 (unitHeading 4)) = FixPt.fromInt 5 /\
  ~ angle (AirUnit_turn sampleLib game1 (unitHeading 4)) < angle (unitHeading 4).
Proof. repeat split. vm_compute. discriminate. Qed.

Lemma AirUnit_turn_no_overshoot_witness :
  ringDist (FixPt.fromInt NUM_ANGLES) (angle (unitHeading 3)) 0 = FixPt.fromInt 3 /\
  ringDist (FixPt.fromInt NUM_ANGLES)
           (angle (AirUnit_turn sampleLib game1 (unitHeading 3)))
           (destinationAngleOf sampleLib (unitHeading 3))
    = FixPt.fromInt 2.
Proof.
  split; [reflexivity|].
  rewrite (proj1 (AirUnit_turn_no_overshoot sampleLib game1 (unitHeading 3)
                    eq_refl ltac:(vm_compute; discriminate)
                    ltac:(vm_compute; split; [discriminate | reflexivity])
                    ltac:(vm_compute; split; [discriminate | reflexivity])
                    ltac:(vm_compute; discriminate))).
  reflexivity.
Defined.

(** C3, as stated, fails at the heading 9, a heading in [[0, 256)], with
    the destination at heading 0 and turn speed 1: the step takes the
    heading to 2.  On a ring of 256 the distance goes from 9 to 2, not to 8;
    on the ring of [NUM_ANGLES] it goes from 1 to 2, away from the
    destination. *)
Lemma AirUnit_turn_overshoot_outside_ring :
  0 <= angle (unitHeading 9) < FixPt.fromInt 256 /\
  destinationAngleOf sampleLib (unitHeading 9) = 0 /\
  angle (AirUnit_turn sampleLib game1 (unitHeading 9)) = FixPt.fromInt 2 /\
  ringDist (FixPt.fromInt 256) (angle (unitHeading 9)) 0 = FixPt.fromInt 9 /\
  ringDist (FixPt.fromInt 256)
           (angle (AirUnit_turn sampleLib game1 (unitHeading 9))) 0
    <> Z.max 0 (ringDist (FixPt.fromInt 256) (angle (unitHeading 9)) 0
                - FixPt.fromInt 1) /\
  ~ ringDist (FixPt.fromInt NUM_ANGLES)
             (angle (AirUnit_turn sampleLib game1 (unitHeading 9))) 0
    <= ringDist (FixPt.fromInt NUM_ANGLES) (angle (unitHeading 9)) 0.
Proof.
  repeat split; try (vm_compute; discriminate).
  vm_compute. intros H. apply H. reflexivity.
Qed.

(** ** Tile occupancy *)

Lemma elem_of_airTilesOf (m : Map) (objID : Z) (pos : Coord) :
  pos ∈ airTilesOf m objID <->
  exists t, m !! pos = Some t /\ objID ∈ assignedAirUnitList t.
Proof.
  unfold airTilesOf. rewrite elem_of_dom. unfold is_Some.
  split.
  - intros [t Ht]. apply map_lookup_filter_Some in Ht as [Hm Hin].
    exists t. split; assumption.
  - intros [t [Hm Hin]]. exists t. apply map_lookup_filter_Some.
    split; assumption.
Qed.

Lemma tileExists_Some (m : Map) (pos : Coord) :
  tileExists m pos = true <-> exists t, m !! pos = Some t.
Proof.
  unfold tileExists, getTile. destruct (m !! pos) as [t|].
  - split; [intros _; exists t; reflexivity | reflexivity].
  - split; [discriminate | intros [t Ht]; discriminate].
Qed.

Lemma tileExists_alter (f : Tile -> Tile) (m : Map) (p q : Coord) :
  tileExists (alter f p m) q = tileExists m q.
Proof.
  unfold tileExists, getTile.
  destruct (decide (p = q)) as [->|Hne].
  - rewrite lookup_alter_eq. destruct (m !! q); reflexivity.
  - rewrite lookup_alter_ne by assumption. reflexivity.
Qed.

Lemma airTilesOf_unassign (m : Map) (u : Unit) (pos : Coord) :
  airTilesOf (unassignFromMap m u pos) (objectID u)
  = airTilesOf m (objectID u) ∖ {[ pos ]}.
Proof.
  apply set_eq. intros q.
  rewrite elem_of_difference, elem_of_singleton, !elem_of_airTilesOf.
  unfold unassignFromMap, tileExists, getTile.
  destruct (m !! pos) as [tp|] eqn:Hp.
  - destruct (decide (pos = q)) as [->|Hne].
    + rewrite lookup_alter_eq, Hp. simpl. split.
      * intros [t [Ht Hin]]. inversion Ht; subst t. simpl in Hin.
        apply list_elem_of_filter in Hin as [Hneq _]. congruence.
      * intros [_ Hq]. congruence.
    + rewrite lookup_alter_ne by assumption. split.
      * intros H. split; [exact H | congruence].
      * intros [H _]. exact H.
  - split.
    + intros [t [Ht Hin]]. split; [exists t; split; assumption|].
      intros ->. congruence.
    + intros [H _]. exact H.
Qed.

Lemma assignToMap_objectID (s : Map * Unit) (pos : Coord) :
  objectID (snd (AirUnit_assignToMap s pos)) = objectID (snd s).
Proof.
  destruct s as [m u]. unfold AirUnit_assignToMap.
  destruct (tileExists m pos); [|reflexivity].
  destruct (isInvalid (guardPoint u)); reflexivity.
Qed.

Lemma assignToMap_location (s : Map * Unit) (pos : Coord) :
  location (snd (AirUnit_assignToMap s pos)) = location (snd s).
Proof.
  destruct s as [m u]. unfold AirUnit_assignToMap.
  destruct (tileExists m pos); [|reflexivity].
  destruct (isInvalid (guardPoint u)); reflexivity.
Qed.

Lemma assignToMap_real (s : Map * Unit) (pos : Coord) :
  realX (snd (AirUnit_assignToMap s pos)) = realX (snd s) /\
  realY (snd (AirUnit_assignToMap s pos)) = realY (snd s).
Proof.
  destruct s as [m u]. unfold AirUnit_assignToMap.
  destruct (tileExists m pos); [|split; reflexivity].
  destruct (isInvalid (guardPoint u)); split; reflexivity.
Qed.

Lemma assignToMap_tileExists (s : Map * Unit) (pos q : Coord) :
  tileExists (fst (AirUnit_assignToMap s pos)) q = tileExists (fst s) q.
Proof.
  destruct s as [m u]. unfold AirUnit_assignToMap.
  destruct (tileExists m pos); [|reflexivity].
  simpl. apply tileExists_alter.
Qed.

Lemma airTilesOf_assign (m : Map) (u : Unit) (pos : Coord) :
  airTilesOf (fst (AirUnit_assignToMap (m, u) pos)) (objectID u)
  = airTilesOf m (objectID u) ∪ (if tileExists m pos then {[ pos ]} else ∅).
Proof.
  apply set_eq. intros q. rewrite elem_of_union, !elem_of_airTilesOf.
  unfold AirUnit_assignToMap, tileExists, getTile.
  destruct (m !! pos) as [tp|] eqn:Hp.
  - assert (Hid : objectID (if isInvalid (guardPoint u)
                            then set_guardPoint pos u else u) = objectID u)
      by (destruct (isInvalid (guardPoint u)); reflexivity).
    simpl. rewrite Hid, elem_of_singleton.
    destruct (decide (pos = q)) as [->|Hne].
    + rewrite lookup_alter_eq, Hp. simpl. split.
      * intros _. right. reflexivity.
      * intros _. eexists. split; [reflexivity|]. simpl.
        apply elem_of_app. right. apply list_elem_of_singleton. reflexivity.
    + rewrite lookup_alter_ne by assumption. split.
      * intros H. left. exact H.
      * intros [H|H]; [exact H | congruence].
  - simpl. rewrite elem_of_empty. tauto.
Qed.

(** ** Move steps *)

Lemma checkPos_frame (L : MathLib) (g : Game) (u : Unit) :
  objectID (checkPos L g u) = objectID u /\
  location (checkPos L g u) = location u /\
  realX (checkPos L g u) = realX u /\
  realY (checkPos L g u) = realY u.
Proof.
  unfold checkPos, Ornithopter_checkPos, AirUnit_checkPos, setDestination.
  destruct (cls u); [repeat split|].
  destruct (target u); [repeat split|].
  destruct (isValid (destination u)).
  - destruct (blockDistance L (location u) (destination u) <=? FixPt.fromInt 2);
      repeat split.
  - destruct (FixPt.fromInt 17 <? blockDistance L (location u) (guardPoint u));
      repeat split.
Qed.

Lemma moveBy_location (chk : Unit -> Unit) (dx dy : FixPoint) (s : Map * Unit) :
  (forall u, location (chk u) = location u /\ realX (chk u) = realX u
             /\ realY (chk u) = realY u) ->
  location (snd (AirUnit_moveBy chk dx dy s))
  = tileOfPosition (snd (AirUnit_moveBy chk dx dy s)).
Proof.
  intros Hchk. destruct s as [m u]. unfold AirUnit_moveBy, tileOfPosition.
  case_bool_decide as Hnew.
  - destruct (AirUnit_assignToMap _ _) as [m2 u2] eqn:Has.
    pose proof (assignToMap_real
                  (unassignFromMap m (set_real (realX u + dx) (realY u + dy) u)
                                   (location (set_real (realX u + dx) (realY u + dy) u)),
                   set_real (realX u + dx) (realY u + dy) u)
                  (mkCoord (Z.quot (FixPt.lround (realX (set_real (realX u + dx) (realY u + dy) u))) TILESIZE)
                           (Z.quot (FixPt.lround (realY (set_real (realX u + dx) (realY u + dy) u))) TILESIZE)))
      as [Hx Hy].
    rewrite Has in Hx, Hy. simpl in Hx, Hy. simpl.
    destruct (Hchk (set_location
        (mkCoord (Z.quot (FixPt.lround (realX u + dx)) TILESIZE)
                 (Z.quot (FixPt.lround (realY u + dy)) TILESIZE)) u2))
      as [Hl [Hrx Hry]].
    rewrite Hl, Hrx, Hry. simpl. rewrite Hx, Hy. reflexivity.
  - simpl. destruct (Hchk (set_real (realX u + dx) (realY u + dy) u))
      as [Hl [Hrx Hry]].
    rewrite Hl, Hrx, Hry. simpl in *.
    destruct (decide (mkCoord (Z.quot (FixPt.lround (realX u + dx)) TILESIZE)
                              (Z.quot (FixPt.lround (realY u + dy)) TILESIZE)
                      = location u)) as [Heq|Hne]; [|contradiction].
    symmetry. exact Heq.
Qed.

(** C4, as the code has it: after every move step the tile coordinate is
    the one computed from the new position, by rounding each component to
    the nearest integer and dividing by [TILESIZE] with truncation. *)
Theorem AirUnit_move_location (L : MathLib) (g : Game) (s : Map * Unit) :
  coord_x (location (snd (AirUnit_move L g s)))
    = Z.quot (FixPt.lround (realX (snd (AirUnit_move L g s)))) TILESIZE /\
  coord_y (location (snd (AirUnit_move L g s)))
    = Z.quot (FixPt.lround (realY (snd (AirUnit_move L g s)))) TILESIZE.
Proof.
  unfold AirUnit_move. rewrite moveBy_location.
  - split; reflexivity.
  - intros u. pose proof (checkPos_frame L g u). tauto.
Qed.

(** C4, as stated, fails for a unit that moves from [x = 61.75] by 2 to
    [x = 63.75]: the code rounds 63.75 to 64 and puts the unit on tile 1,
    while [floor(63.75 / 64)] is 0. *)
Lemma AirUnit_move_location_not_floor :
  realX (snd (AirUnit_move sampleLib game1 (unitAt almost62 (FixPt.fromInt 32))))
    = almost62 + FixPt.fromInt 2 /\
  coord_x (location (snd (AirUnit_move sampleLib game1
                            (unitAt almost62 (FixPt.fromInt 32))))) = 1 /\
  spec_tileOf (realX (snd (AirUnit_move sampleLib game1
                            (unitAt almost62 (FixPt.fromInt 32))))) = 0 /\
  coord_x (location (snd (AirUnit_move sampleLib game1
                            (unitAt almost62 (FixPt.fromInt 32)))))
    <> spec_tileOf (realX (snd (AirUnit_move sampleLib game1
                            (unitAt almost62 (FixPt.fromInt 32))))).
Proof. repeat split. vm_compute. discriminate. Qed.

Lemma moveBy_registered (chk : Unit -> Unit) (dx dy : FixPoint) (s : Map * Unit) :
  (forall u, objectID (chk u) = objectID u /\ location (chk u) = location u) ->
  registeredAtLocation s ->
  registeredAtLocation (AirUnit_moveBy chk dx dy s).
Proof.
  intros Hchk. destruct s as [m u]. intros Hreg.
  unfold registeredAtLocation in Hreg. cbn [fst snd] in Hreg.
  unfold registeredAtLocation, AirUnit_moveBy.
  set (u1 := set_real (realX u + dx) (realY u + dy) u).
  set (newLocation := mkCoord _ _).
  case_bool_decide as Hnew.
  - destruct (AirUnit_assignToMap (unassignFromMap m u1 (location u1), u1) newLocation)
      as [m2 u2] eqn:Has.
    pose proof (airTilesOf_assign (unassignFromMap m u1 (location u1)) u1 newLocation)
      as Hassign.
    pose proof (assignToMap_objectID (unassignFromMap m u1 (location u1), u1) newLocation)
      as Hid.
    pose proof (assignToMap_tileExists (unassignFromMap m u1 (location u1), u1)
                  newLocation newLocation) as Hex.
    rewrite Has in Hassign, Hid, Hex. cbn [fst snd] in Hassign, Hid, Hex.
    cbn [fst snd].
    destruct (Hchk (set_location newLocation u2)) as [Hcid Hcloc].
    rewrite Hcid, Hcloc.
    change (objectID (set_location newLocation u2)) with (objectID u2).
    change (location (set_location newLocation u2)) with newLocation.
    rewrite airTilesOf_unassign in Hassign.
    change (objectID u1) with (objectID u) in Hid, Hassign.
    change (location u1) with (location u) in Hassign, Hex.
    rewrite Hid, Hassign, Hex, Hreg.
    destruct (tileExists m (location u));
      destruct (tileExists (unassignFromMap m u1 (location u)) newLocation);
      apply set_eq; intros q;
      rewrite elem_of_union, elem_of_difference, ?elem_of_singleton, ?elem_of_empty;
      tauto.
  - cbn [fst snd]. destruct (Hchk u1) as [Hcid Hcloc]. rewrite Hcid, Hcloc.
    exact Hreg.
Qed.

Lemma AirUnit_move_registered (L : MathLib) (g : Game) (s : Map * Unit) :
  registeredAtLocation s -> registeredAtLocation (AirUnit_move L g s).
Proof.
  intros Hreg. unfold AirUnit_move. apply moveBy_registered; [|exact Hreg].
  intros u. pose proof (checkPos_frame L g u). tauto.
Qed.

Lemma registered_size (s : Map * Unit) :
  registeredAtLocation s ->
  size (airTilesOf (fst s) (objectID (snd s)))
  = if tileExists (fst s) (location (snd s)) then 1%nat else 0%nat.
Proof.
  unfold registeredAtLocation. intros ->.
  destruct (tileExists (fst s) (location (snd s))).
  - apply size_singleton.
  - apply size_empty.
Qed.

(** C2, as the code has it: if the unit is registered in the air slot of
    the tile of its location, when the map has that tile, and in no other
    tile, then the same holds at the end of every move step of every run:
    the unit is in exactly one air slot while its location is on the map, in
    none once it has left the map, and never in two. *)
Theorem AirUnit_moves_registered (L : MathLib) (ticks : list Game) (s : Map * Unit) :
  registeredAtLocation s ->
  registeredAtLocation (AirUnit_moves L ticks s) /\
  size (airTilesOf (fst (AirUnit_moves L ticks s))
                   (objectID (snd (AirUnit_moves L ticks s))))
  = if tileExists (fst (AirUnit_moves L ticks s))
                  (location (snd (AirUnit_moves L ticks s)))
    then 1%nat else 0%nat.
Proof.
  intros Hreg.
  assert (Hinv : registeredAtLocation (AirUnit_moves L ticks s)).
  { unfold AirUnit_moves. revert s Hreg.
    induction ticks as [|g ticks IH]; intros s Hreg; simpl.
    - exact Hreg.
    - apply IH. apply AirUnit_move_registered. exact Hreg. }
  split; [exact Hinv | apply registered_size; exact Hinv].
Qed.

Lemma sample_registered (rx ry : FixPoint) : registeredAtLocation (unitAt rx ry).
Proof. reflexivity. Qed.

Lemma AirUnit_moves_registered_witness :
  registeredAtLocation (unitAt (FixPt.fromInt 32) (FixPt.fromInt 32)) /\
  size (airTilesOf
          (fst (AirUnit_moves sampleLib [game1; game1]
                  (unitAt (FixPt.fromInt 32) (FixPt.fromInt 32))))
          (objectID
             (snd (AirUnit_moves sampleLib [game1; game1]
                     (unitAt (FixPt.fromInt 32) (FixPt.fromInt 32))))))
  = 1%nat.
Proof.
  split; [apply sample_registered|].
  rewrite (proj2 (AirUnit_moves_registered sampleLib [game1; game1]
                    (unitAt (FixPt.fromInt 32) (FixPt.fromInt 32))
                    (sample_registered _ _))).
  reflexivity.
Defined.

(** C2, as stated, fails for a unit on the easternmost tile that flies
    east: registered in exactly one tile before the step, it moves from
    [x = 62] to [x = 64], its tile coordinate becomes [(1, 0)], where the
    map has no tile, and [assignToMap] does nothing: after the step the unit
    is registered in no tile. *)
Lemma AirUnit_move_leaves_map :
  size (airTilesOf (fst (unitAt (FixPt.fromInt 62) (FixPt.fromInt 32))) 7) = 1%nat /\
  location (snd (AirUnit_move sampleLib game1
                   (unitAt (FixPt.fromInt 62) (FixPt.fromInt 32)))) = mkCoord 1 0 /\
  objectID (snd (AirUnit_move sampleLib game1
                   (unitAt (FixPt.fromInt 62) (FixPt.fromInt 32)))) = 7 /\
  size (airTilesOf (fst (AirUnit_move sampleLib game1
                           (unitAt (FixPt.fromInt 62) (FixPt.fromInt 32)))) 7) = 0%nat.
Proof. repeat split. Qed.

(** ** Assigning to the map and passability *)

(** C9: where the map has no tile, [AirUnit::assignToMap] changes neither
    the map nor the unit, the guard point included; the function is total,
    so there is no failure either. *)
Theorem AirUnit_assignToMap_no_tile (m : Map) (u : Unit) (pos : Coord) :
  tileExists m pos = false ->
  AirUnit_assignToMap (m, u) pos = (m, u).
Proof.
  intros Hno. unfold AirUnit_assignToMap. rewrite Hno. reflexivity.
Qed.

Lemma AirUnit_assignToMap_no_tile_witness :
  tileExists sampleMap (mkCoord 300 (-1)) = false /\
  AirUnit_assignToMap (sampleMap, ornithopterTo Coord_Invalid) (mkCoord 300 (-1))
  = (sampleMap, ornithopterTo Coord_Invalid).
Proof.
  split; [reflexivity|].
  apply (AirUnit_assignToMap_no_tile sampleMap (ornithopterTo Coord_Invalid)
           (mkCoord 300 (-1))).
  reflexivity.
Defined.

Lemma hasAnAirUnit_false (t : Tile) :
  hasAnAirUnit t = false <-> assignedAirUnitList t = [].
Proof.
  unfold hasAnAirUnit. destruct (assignedAirUnitList t).
  - split; reflexivity.
  - split; discriminate.
Qed.

(** C10: [AirUnit::canPass] is true at every coordinate; the override of
    [Ornithopter] is true exactly when the map has a tile there and the
    air-unit list of that tile is empty. *)
Theorem canPass_air_units (m : Map) (u : Unit) (xPos yPos : Z) :
  AirUnit_canPass m u xPos yPos = true /\
  (Ornithopter_canPass m u xPos yPos = true <->
   exists t, getTile m (mkCoord xPos yPos) = Some t /\ assignedAirUnitList t = []).
Proof.
  split; [reflexivity|].
  unfold Ornithopter_canPass, tileExists.
  destruct (getTile m (mkCoord xPos yPos)) as [t|].
  - simpl. rewrite negb_true_iff, hasAnAirUnit_false. split.
    + intros Ht. exists t. split; [reflexivity | exact Ht].
    + intros [t' [Heq Ht']]. inversion Heq; subst t'. exact Ht'.
  - simpl. split; [discriminate|]. intros [t [Heq _]]. discriminate.
Qed.

(** ** Targeting *)

(** C6, as the code has it: [canAttack] is true exactly for a candidate
    that is present, is not a flying unit, is of another team or is a
    sandworm, and is visible to the team of the observer. *)
Theorem Ornithopter_canAttack_iff (u : Unit) (object : option ObjectBase) :
  Ornithopter_canAttack u object = true <->
  exists o, object = Some o /\
            ob_aFlyingUnit o = false /\
            (ob_ownerTeam o <> ownerTeam u \/ ob_itemID o = Unit_Sandworm) /\
            ob_visible o (ownerTeam u) = true.
Proof.
  unfold Ornithopter_canAttack. destruct object as [o|].
  - rewrite !andb_true_iff, orb_true_iff, !negb_true_iff, Z.eqb_neq,
      bool_decide_eq_true.
    split.
    + intros [[Hf Ht] Hv]. exists o. repeat split; assumption.
    + intros [o' [Heq [Hf [Ht Hv]]]]. inversion Heq; subst o'.
      repeat split; assumption.
  - split; [discriminate|]. intros [o [Heq _]]. discriminate.
Qed.

Lemma Ornithopter_canAttack_iff_witness :
  Ornithopter_canAttack (ornithopterTo Coord_Invalid) (Some enemyGroundUnit) = true.
Proof.
  apply (proj2 (Ornithopter_canAttack_iff (ornithopterTo Coord_Invalid)
                  (Some enemyGroundUnit))).
  exists enemyGroundUnit. split; [reflexivity|]. split; [reflexivity|].
  split; [left; vm_compute; discriminate | reflexivity].
Defined.

(** C6, as stated, fails for a visible sandworm of the observer's own
    team: it is not of an opposing team, and [canAttack] is true. *)
Lemma Ornithopter_canAttack_own_sandworm :
  ob_ownerTeam ownSandworm = ownerTeam (ornithopterTo Coord_Invalid) /\
  Ornithopter_canAttack (ornithopterTo Coord_Invalid) (Some ownSandworm) = true /\
  ~ (Ornithopter_canAttack (ornithopterTo Coord_Invalid) (Some ownSandworm) = true <->
     (ob_aFlyingUnit ownSandworm = false \/ ob_itemID ownSandworm = Unit_Sandworm) /\
     ob_ownerTeam ownSandworm <> ownerTeam (ornithopterTo Coord_Invalid) /\
     ob_visible ownSandworm (ownerTeam (ornithopterTo Coord_Invalid)) = true).
Proof.
  split; [reflexivity|]. split; [reflexivity|].
  intros [H _]. destruct (H eq_refl) as [_ [Hteam _]]. apply Hteam. reflexivity.
Qed.

(** ** Destination and guard point *)

(** C7: for an ornithopter without a target, [checkPos] invalidates a
    valid destination that is at block distance at most 2 from the location,
    and sets an invalid destination to the guard point when the guard point
    is at block distance more than 17. *)
Theorem Ornithopter_checkPos_destination (L : MathLib) (g : Game) (u : Unit) :
  target u = None ->
  (isValid (destination u) = true ->
   blockDistance L (location u) (destination u) <= FixPt.fromInt 2 ->
   isValid (destination (Ornithopter_checkPos L g u)) = false) /\
  (isValid (destination u) = false ->
   FixPt.fromInt 17 < blockDistance L (location u) (guardPoint u) ->
   destination (Ornithopter_checkPos L g u) = guardPoint u).
Proof.
  intros Htarget. unfold Ornithopter_checkPos, AirUnit_checkPos, setDestination.
  rewrite Htarget. split.
  - intros Hv Hd. rewrite Hv.
    destruct (Z.leb_spec (blockDistance L (location u) (destination u))
                (FixPt.fromInt 2)); [reflexivity | lia].
  - intros Hv Hd. rewrite Hv.
    destruct (Z.ltb_spec (FixPt.fromInt 17)
                (blockDistance L (location u) (guardPoint u))); [reflexivity | lia].
Qed.

Lemma Ornithopter_checkPos_destination_witness :
  isValid (destination (Ornithopter_checkPos sampleLib game1
                          (ornithopterTo (mkCoord 2 1)))) = false /\
  destination (Ornithopter_checkPos sampleLib game1
                 (set_location (mkCoord 18 0) (ornithopterTo Coord_Invalid)))
  = mkCoord 0 0.
Proof.
  split.
  - apply (proj1 (Ornithopter_checkPos_destination sampleLib game1
                    (ornithopterTo (mkCoord 2 1)) eq_refl)).
    + reflexivity.
    + vm_compute. discriminate.
  - apply (proj2 (Ornithopter_checkPos_destination sampleLib game1
                    (set_location (mkCoord 18 0) (ornithopterTo Coord_Invalid))
                    eq_refl)).
    + reflexivity.
    + reflexivity.
Defined.

Lemma canPass_air_units_witness :
  AirUnit_canPass sampleMap (ornithopterTo Coord_Invalid) 9 9 = true /\
  Ornithopter_canPass emptyTileMap (ornithopterTo Coord_Invalid) 0 0 = true.
Proof.
  split.
  - apply (proj1 (canPass_air_units sampleMap (ornithopterTo Coord_Invalid) 9 9)).
  - apply (proj2 (canPass_air_units emptyTileMap (ornithopterTo Coord_Invalid) 0 0)).
    eexists. split; reflexivity.
Defined.

(** ** Saving and loading *)

Lemma length_le_bytes (n : nat) (v : Z) : length (le_bytes n v) = n.
Proof.
  revert v. induction n as [|n IH]; intros v; simpl; [reflexivity|].
  rewrite IH. reflexivity.
Qed.

Lemma le_value_le_bytes (n : nat) (v : Z) :
  le_value (le_bytes n v) = v mod 256 ^ Z.of_nat n.
Proof.
  revert v. induction n as [|n IH]; intros v.
  - simpl. rewrite Z.mod_1_r. reflexivity.
  - cbn [le_bytes le_value]. rewrite IH.
    rewrite Nat2Z.inj_succ, Z.pow_succ_r by lia.
    rewrite Z.rem_mul_r by lia. reflexivity.
Qed.

Lemma readBytes_le_bytes (n : nat) (v : Z) (rest : list Z) :
  0 <= v < 256 ^ Z.of_nat n ->
  readBytes n (le_bytes n v ++ rest) = Some (v, rest).
Proof.
  intros Hv. unfold readBytes.
  destruct (Nat.ltb_spec (length (le_bytes n v ++ rest)) n) as [Hlt|_].
  - rewrite length_app, length_le_bytes in Hlt. lia.
  - rewrite take_app_length' by (symmetry; apply length_le_bytes).
    rewrite drop_app_length' by (symmetry; apply length_le_bytes).
    rewrite le_value_le_bytes, Z.mod_small by exact Hv. reflexivity.
Qed.

Lemma read_write_Uint32 (x : Z) (rest : list Z) :
  isUint32 x -> readUint32 (writeUint32 x ++ rest) = Some (x, rest).
Proof.
  unfold isUint32, readUint32, writeUint32. intros Hx.
  rewrite Z.mod_small by exact Hx.
  apply readBytes_le_bytes. simpl. lia.
Qed.

Lemma toSigned_mod (bits x : Z) :
  0 < bits -> - 2 ^ (bits - 1) <= x < 2 ^ (bits - 1) ->
  toSigned bits (x mod 2 ^ bits) = x.
Proof.
  intros Hb Hx. unfold toSigned.
  assert (Hp : 2 ^ bits = 2 * 2 ^ (bits - 1)).
  { rewrite <- Z.pow_succ_r by lia. f_equal. lia. }
  destruct (Z.ltb_spec x 0) as [Hneg|Hpos].
  - replace (x mod 2 ^ bits) with (x + 2 ^ bits).
    + destruct (Z.ltb_spec (x + 2 ^ bits) (2 ^ (bits - 1))); lia.
    + apply (Z.mod_unique_pos _ _ (-1)); lia.
  - rewrite Z.mod_small by lia.
    destruct (Z.ltb_spec x (2 ^ (bits - 1))); lia.
Qed.

Lemma read_write_Sint32 (x : Z) (rest : list Z) :
  isSint32 x -> readSint32 (writeSint32 x ++ rest) = Some (x, rest).
Proof.
  unfold isSint32, readSint32, writeSint32, bind, ret. intros Hx.
  rewrite readBytes_le_bytes
    by (change (256 ^ Z.of_nat 4) with (2 ^ 32); apply Z.mod_pos_bound; lia).
  rewrite toSigned_mod; [reflexivity | lia | exact Hx].
Qed.

Lemma read_write_FixPoint (x : FixPoint) (rest : list Z) :
  isFixPoint x -> readFixPoint (writeFixPoint x ++ rest) = Some (x, rest).
Proof.
  unfold isFixPoint, readFixPoint, writeFixPoint, bind, ret. intros Hx.
  rewrite readBytes_le_bytes
    by (change (256 ^ Z.of_nat 8) with (2 ^ 64); apply Z.mod_pos_bound; lia).
  rewrite toSigned_mod; [reflexivity | lia | exact Hx].
Qed.

Lemma read_write_Bool (b : bool) (rest : list Z) :
  readBool (writeBool b ++ rest) = Some (b, rest).
Proof. destruct b; reflexivity. Qed.

Lemma read_write_Coord (c : Coord) (rest : list Z) :
  isCoord c -> readCoord (writeCoord c ++ rest) = Some (c, rest).
Proof.
  intros [Hx Hy]. unfold readCoord, writeCoord, bind, ret.
  rewrite <- app_assoc, read_write_Sint32 by exact Hx.
  rewrite read_write_Sint32 by exact Hy.
  destruct c; reflexivity.
Qed.

Lemma read_write_Target (t : option Z) (rest : list Z) :
  (forall i, t = Some i -> isUint32 i) ->
  readTarget (writeTarget t ++ rest) = Some (t, rest).
Proof.
  intros Ht. unfold readTarget, writeTarget, bind. destruct t as [i|].
  - rewrite <- app_assoc, read_write_Bool.
    rewrite read_write_Uint32 by (apply Ht; reflexivity). reflexivity.
  - rewrite read_write_Bool. reflexivity.
Qed.

Ltac read_back :=
  first [ rewrite read_write_Uint32 by assumption
        | rewrite read_write_Sint32 by assumption
        | rewrite read_write_FixPoint by assumption
        | rewrite read_write_Coord by assumption
        | rewrite read_write_Target by assumption
        | rewrite read_write_Bool ];
  cbv beta iota.

Lemma UnitBase_save_load (u : Unit) (rest : list Z) :
  wellTyped u ->
  UnitBase_load (UnitBase_save u [] ++ rest) = Some (asLoadedBase u, rest).
Proof.
  intros [H1 H2 H3 H4 H5 H6 H7 H8 H9 H10 H11 H12 H13 H14 H15].
  unfold UnitBase_save, UnitBase_load. rewrite app_nil_l, <- !app_assoc.
  unfold bind. do 16 read_back.
  unfold ret. destruct u; reflexivity.
Qed.

Lemma AirUnit_save_load (u : Unit) (rest : list Z) :
  wellTyped u ->
  AirUnit_load (AirUnit_save u [] ++ rest)
  = Some (set_currentMaxSpeed (currentMaxSpeed u) (AirUnit_init (asLoadedBase u)),
          rest).
Proof.
  intros Hwt. unfold AirUnit_save, AirUnit_load, bind.
  rewrite <- app_assoc, UnitBase_save_load by exact Hwt.
  rewrite read_write_FixPoint by apply (wt_currentMaxSpeed u Hwt).
  reflexivity.
Qed.

Lemma Ornithopter_save_load (g : Game) (u : Unit) (rest : list Z) :
  wellTyped u ->
  Ornithopter_load g (AirUnit_save u [] ++ rest)
  = Some (Ornithopter_init g
            (set_currentMaxSpeed (currentMaxSpeed u) (AirUnit_init (asLoadedBase u))),
          rest).
Proof.
  intros Hwt. unfold Ornithopter_load, bind.
  rewrite AirUnit_save_load by exact Hwt. reflexivity.
Qed.

(** C5: for a unit whose members are in the ranges of their machine
    types, [AirUnit::save] followed by the stream constructor of [AirUnit]
    consumes exactly the bytes written and yields a unit with the same
    position, heading, health, destination and current max speed; and so
    does the stream constructor of [Ornithopter] for an ornithopter, that
    is, a unit in the form that both constructors of [Ornithopter] establish
    and that no step changes, in which the current max speed is the one of
    the balance table. *)
Theorem save_load_round_trip (g : Game) (u : Unit) (rest : list Z) :
  wellTyped u ->
  (exists u', AirUnit_load (AirUnit_save u [] ++ rest) = Some (u', rest) /\
              sameState u u' /\
              currentMaxSpeed u' = currentMaxSpeed u) /\
  (ornithopterForm g u ->
   exists u', Ornithopter_load g (AirUnit_save u [] ++ rest) = Some (u', rest) /\
              sameState u u' /\
              currentMaxSpeed u' = currentMaxSpeed u).
Proof.
  intros Hwt. split.
  - eexists. split; [apply AirUnit_save_load; exact Hwt|].
    split; [repeat split | reflexivity].
  - intros [_ [_ [_ [_ Hspeed]]]].
    eexists. split; [apply Ornithopter_save_load; exact Hwt|].
    split; [repeat split|]. rewrite Hspeed. reflexivity.
Qed.

Lemma sampleUnit_wellTyped : wellTyped fastOrnithopter.
Proof.
  constructor; try (intros i Hi; discriminate Hi);
    vm_compute; repeat split; discriminate.
Qed.

Lemma ornithopterTo_wellTyped (dest : Coord) :
  isCoord dest -> wellTyped (ornithopterTo dest).
Proof.
  intros Hdest.
  constructor; try (intros i Hi; discriminate Hi); try exact Hdest;
    vm_compute; repeat split; discriminate.
Qed.

Lemma save_load_round_trip_witness :
  exists u', Ornithopter_load game1
               (AirUnit_save (ornithopterTo (mkCoord 5 0)) [] ++ [1; 2; 3])
             = Some (u', [1; 2; 3]) /\
             sameState (ornithopterTo (mkCoord 5 0)) u' /\
             currentMaxSpeed u' = currentMaxSpeed (ornithopterTo (mkCoord 5 0)).
Proof.
  apply (proj2 (save_load_round_trip game1 (ornithopterTo (mkCoord 5 0)) [1; 2; 3]
                  (ornithopterTo_wellTyped (mkCoord 5 0)
                     ltac:(vm_compute; repeat split; discriminate)))).
  unfold ornithopterForm. repeat split; reflexivity.
Defined.

(** Outside that form the saved speed is not what a load returns: a unit
    built by hand with the current max speed 5, where the balance table
    gives ornithopters the max speed 2, is loaded with the speed 2, because
    [Ornithopter::init] assigns the table's speed after the stream
    constructor of [AirUnit] has read the 5 back. *)
Lemma Ornithopter_load_resets_speed :
  currentMaxSpeed fastOrnithopter = FixPt.fromInt 5 /\
  exists u', Ornithopter_load game1 (AirUnit_save fastOrnithopter []) = Some (u', []) /\
             currentMaxSpeed u' = FixPt.fromInt 2 /\
             currentMaxSpeed u' <> currentMaxSpeed fastOrnithopter.
Proof.
  split; [reflexivity|]. eexists. split; [vm_compute; reflexivity|].
  split; [reflexivity|]. vm_compute. discriminate.
Qed.

(** * Further properties *)

(** ** [angleDiff] *)

(** X1: [angleDiff] is symmetric, and for two angles in [[0, NUM_ANGLES)] it
    lies between 0 and [NUM_ANGLES / 2]. *)
Theorem angleDiff_sym_bounds (a b : Z) :
  angleDiff a b = angleDiff b a /\
  (0 <= a < NUM_ANGLES -> 0 <= b < NUM_ANGLES ->
   0 <= angleDiff a b <= NUM_ANGLES / 2).
Proof.
  unfold angleDiff, NUM_ANGLES. change (8 / 2) with 4. split; [lia|].
  intros Ha Hb. lia.
Qed.

Lemma angleDiff_sym_bounds_witness :
  0 <= angleDiff 1 6 <= NUM_ANGLES / 2.
Proof.
  apply (proj2 (angleDiff_sym_bounds 1 6)); vm_compute; split; congruence.
Defined.

(** X2: on the angles in [[0, NUM_ANGLES)], [angleDiff] is a distance: it is
    zero exactly for equal angles and satisfies the triangle inequality. *)
Theorem angleDiff_metric (a b c : Z) :
  0 <= a < NUM_ANGLES -> 0 <= b < NUM_ANGLES -> 0 <= c < NUM_ANGLES ->
  (angleDiff a b = 0 <-> a = b) /\
  angleDiff a c <= angleDiff a b + angleDiff b c.
Proof.
  unfold angleDiff, NUM_ANGLES. intros Ha Hb Hc. split; [split|]; lia.
Qed.

Lemma angleDiff_metric_witness :
  (angleDiff 7 0 = 0 <-> 7 = 0) /\
  angleDiff 7 3 <= angleDiff 7 0 + angleDiff 0 3.
Proof.
  apply (angleDiff_metric 7 0 3); vm_compute; split; congruence.
Defined.

(** X3: for two [int] angles whose difference is an [int] too, the result
    of [angleDiff] is negative exactly when the two angles are more than
    [NUM_ANGLES] apart; it is the circular distance only for angles of one
    ring. *)
Theorem angleDiff_negative_iff (a b : Z) :
  isSint32 a -> isSint32 b -> - 2 ^ 31 < a - b < 2 ^ 31 ->
  (angleDiff a b < 0 <-> NUM_ANGLES < Z.abs (a - b)).
Proof.
  intros _ _ _. unfold angleDiff, NUM_ANGLES. lia.
Qed.

Lemma angleDiff_negative_iff_witness :
  angleDiff 0 20 < 0.
Proof.
  apply (proj2 (angleDiff_negative_iff 0 20
                  ltac:(vm_compute; split; congruence)
                  ltac:(vm_compute; split; congruence)
                  ltac:(vm_compute; split; congruence))).
  vm_compute. reflexivity.
Defined.

(** X4: turning both angles of a ring by the same amount [k] around the
    ring does not change their [angleDiff]. *)
Theorem angleDiff_rotate (a b k : Z) :
  0 <= a < NUM_ANGLES -> 0 <= b < NUM_ANGLES ->
  angleDiff ((a + k) mod NUM_ANGLES) ((b + k) mod NUM_ANGLES) = angleDiff a b.
Proof.
  unfold angleDiff, NUM_ANGLES. intros Ha Hb.
  pose proof (Z.mod_pos_bound (a + k) 8 ltac:(lia)) as Hra.
  pose proof (Z.mod_pos_bound (b + k) 8 ltac:(lia)) as Hrb.
  pose proof (Z.div_mod (a + k) 8 ltac:(lia)) as Hqa.
  pose proof (Z.div_mod (b + k) 8 ltac:(lia)) as Hqb.
  lia.
Qed.

Lemma angleDiff_rotate_witness :
  angleDiff ((6 + 5) mod NUM_ANGLES) ((1 + 5) mod NUM_ANGLES) = angleDiff 6 1.
Proof.
  apply (angleDiff_rotate 6 1 5); vm_compute; split; congruence.
Defined.

(** ** The buckets of [angleToDrawnAngle] *)

(** X5: every angle [a >= 0] less than 16 below or at most 16 above the
    multiple [32 * k] of 32, the lower end included and the upper excluded,
    has the drawn angle [k mod 8]. *)
Theorem angleToDrawnAngle_bucket (a : FixPoint) (k : Z) :
  0 <= a ->
  FixPt.fromInt (32 * k - 16) <= a < FixPt.fromInt (32 * k + 16) ->
  angleToDrawnAngle a = k mod 8.
Proof.
  intros Ha. unfold FixPt.fromInt. rewrite one_eq. intros Hk.
  rewrite angleToDrawnAngle_nonneg_eq by exact Ha.
  unfold spec_drawnAngle. rewrite one_eq. f_equal.
  symmetry. apply (Z.div_unique _ _ k (a + 16 * 4294967296 - k * (32 * 4294967296))); lia.
Qed.

Lemma angleToDrawnAngle_bucket_witness :
  angleToDrawnAngle (FixPt.fromInt 250) = 8 mod 8.
Proof.
  apply (angleToDrawnAngle_bucket (FixPt.fromInt 250) 8).
  - vm_compute. congruence.
  - vm_compute. split; congruence.
Defined.

(** X6: the angle [32 * k] has the drawn angle [k mod 8], for every integer
    [k], negative ones included. *)
Theorem angleToDrawnAngle_multiple (k : Z) :
  angleToDrawnAngle (FixPt.fromInt (32 * k)) = k mod 8.
Proof.
  unfold angleToDrawnAngle. rewrite land7_mod8, shr5_div. f_equal.
  replace (FixPt.fromInt (32 * k) / 32) with (FixPt.fromInt k).
  - apply lround_fromInt.
  - unfold FixPt.fromInt.
    replace (32 * k * FixPt.one) with (k * FixPt.one * 32) by lia.
    rewrite Z.div_mul by lia. reflexivity.
Qed.

(** [destinationDrawnAngle] returns a drawn angle in [[0, 8)], whatever
    the two coordinates are and whatever angle and quotient the library
    computes for them. *)
Theorem destinationDrawnAngle_range (L : MathLib)
    (destinationAngleRadOf : Coord -> Coord -> FixPoint) (p1 p2 : Coord) :
  0 <= destinationDrawnAngle L destinationAngleRadOf p1 p2 < NUM_ANGLES.
Proof.
  unfold destinationDrawnAngle. apply angleToDrawnAngle_range.
Qed.

(** ** Headings under [AirUnit::turn] *)

Lemma lround_heading (a : FixPoint) :
  0 <= a < FixPt.fromInt NUM_ANGLES ->
  0 <= Z.rem (FixPt.lround a) NUM_ANGLES < NUM_ANGLES /\
  Z.rem (FixPt.lround a) NUM_ANGLES = FixPt.lround a mod NUM_ANGLES.
Proof.
  rewrite NUM_ANGLES_fix. intros Ha. rewrite lround_nonneg by lia.
  rewrite one_eq, half_eq. unfold NUM_ANGLES.
  assert (0 <= (a + 2147483648) / 4294967296) by (apply Z.div_pos; lia).
  rewrite Z.rem_mod_nonneg by lia.
  split; [apply Z.mod_pos_bound; lia | reflexivity].
Qed.

Lemma turnToward_shape (t d : FixPoint) (u : Unit) :
  exists a, AirUnit_turnToward t d u
            = set_heading a (Z.rem (FixPt.lround a) NUM_ANGLES) u.
Proof.
  unfold AirUnit_turnToward.
  destruct (turn_angleLeft (angle u) d <=? turn_angleRight (angle u) d);
    eexists; reflexivity.
Qed.

Lemma AirUnit_turn_shape (L : MathLib) (g : Game) (u : Unit) :
  exists a, AirUnit_turn L g u
            = set_heading a (Z.rem (FixPt.lround a) NUM_ANGLES) u.
Proof.
  unfold AirUnit_turn.
  destruct (isValid (destination u)
            && (primaryWeaponTimer u <=? Z.quot (getWeaponReloadTime g u) 3)).
  - apply turnToward_shape.
  - eexists. reflexivity.
Qed.

Lemma turnToward_angle_range (t d : FixPoint) (u : Unit) :
  0 <= angle u < FixPt.fromInt NUM_ANGLES ->
  0 <= d < FixPt.fromInt NUM_ANGLES ->
  0 <= t ->
  0 <= angle (AirUnit_turnToward t d u) < FixPt.fromInt NUM_ANGLES.
Proof.
  rewrite NUM_ANGLES_fix. intros Hh Hd Ht.
  unfold AirUnit_turnToward, turn_angleLeft, turn_angleRight.
  rewrite NUM_ANGLES_fix.
  destruct (Z.ltb_spec d (angle u)); [|destruct (Z.ltb_spec (angle u) d)];
    match goal with |- context [?a <=? ?b] => destruct (Z.leb_spec a b) end;
    rewrite angle_set_heading;
    repeat match goal with
           | |- context [?a <=? ?b] => destruct (Z.leb_spec a b)
           | |- context [?a <? ?b] => destruct (Z.ltb_spec a b)
           end;
    lia.
Qed.

Lemma turnToward_step (t d : FixPoint) (u : Unit) :
  0 <= angle u < FixPt.fromInt NUM_ANGLES ->
  0 <= d < FixPt.fromInt NUM_ANGLES ->
  0 <= t ->
  ringDist (FixPt.fromInt NUM_ANGLES) (angle (AirUnit_turnToward t d u)) (angle u)
  = Z.min t (ringDist (FixPt.fromInt NUM_ANGLES) (angle u) d).
Proof.
  rewrite NUM_ANGLES_fix. intros Hh Hd Ht.
  unfold AirUnit_turnToward, turn_angleLeft, turn_angleRight, ringDist.
  rewrite NUM_ANGLES_fix.
  rewrite (mod_ring _ (angle u - d)) by lia.
  destruct (Z.ltb_spec d (angle u)); [|destruct (Z.ltb_spec (angle u) d)];
    match goal with |- context [?a <=? ?b] => destruct (Z.leb_spec a b) end;
    rewrite angle_set_heading;
    repeat match goal with
           | |- context [?a <=? ?b] => destruct (Z.leb_spec a b)
           | |- context [?a <? ?b] => destruct (Z.ltb_spec a b)
           end;
    try lia;
    match goal with
    | |- context [?x mod 34359738368] => rewrite (mod_ring _ x) by lia
    end;
    repeat match goal with
           | |- context [?a <? ?b] => destruct (Z.ltb_spec a b)
           end;
    lia.
Qed.

Lemma ringDist_zero (a d : FixPoint) :
  0 <= a < FixPt.fromInt NUM_ANGLES ->
  0 <= d < FixPt.fromInt NUM_ANGLES ->
  ringDist (FixPt.fromInt NUM_ANGLES) a d = 0 -> a = d.
Proof.
  rewrite NUM_ANGLES_fix. unfold ringDist. intros Ha Hd.
  rewrite (mod_ring _ (a - d)) by lia.
  destruct (Z.ltb_spec (a - d) 0); lia.
Qed.

(** X7: a turn step keeps the heading in the ring: if the heading and the
    destination heading are in [[0, NUM_ANGLES)], the turn speed is not
    negative and its eighth, the step of the idle turn, is at most
    [NUM_ANGLES], then after [AirUnit::turn], in either branch, the heading
    is in [[0, NUM_ANGLES)] and the drawn angle is [lround(angle) mod
    NUM_ANGLES], in [[0, NUM_ANGLES)]. *)
Theorem AirUnit_turn_heading_invariant (L : MathLib) (g : Game) (u : Unit) :
  0 <= angle u < FixPt.fromInt NUM_ANGLES ->
  0 <= destinationAngleOf L u < FixPt.fromInt NUM_ANGLES ->
  0 <= turnspeed (objectData g (itemID u) (originalHouseID u)) ->
  0 <= fx_div L (turnspeed (objectData g (itemID u) (originalHouseID u)))
                (FixPt.fromInt 8) <= FixPt.fromInt NUM_ANGLES ->
  0 <= angle (AirUnit_turn L g u) < FixPt.fromInt NUM_ANGLES /\
  0 <= drawnAngle (AirUnit_turn L g u) < NUM_ANGLES /\
  drawnAngle (AirUnit_turn L g u)
    = FixPt.lround (angle (AirUnit_turn L g u)) mod NUM_ANGLES.
Proof.
  intros Hh Hd Ht Hstep.
  assert (Hrange : 0 <= angle (AirUnit_turn L g u) < FixPt.fromInt NUM_ANGLES).
  { unfold AirUnit_turn.
    destruct (isValid (destination u)
              && (primaryWeaponTimer u <=? Z.quot (getWeaponReloadTime g u) 3)).
    - apply turnToward_angle_range; assumption.
    - rewrite angle_set_heading.
      destruct (Z.ltb_spec
                  (angle u - fx_div L (turnspeed (objectData g (itemID u)
                                                    (originalHouseID u)))
                                      (FixPt.fromInt 8)) 0); lia. }
  split; [exact Hrange|].
  destruct (AirUnit_turn_shape L g u) as [a Ha]. rewrite Ha in *.
  rewrite angle_set_heading in Hrange. simpl.
  destruct (lround_heading a Hrange) as [H1 H2]. split; assumption.
Qed.

Lemma AirUnit_turn_heading_invariant_witness :
  0 <= angle (AirUnit_turn sampleLib game1 (unitHeading 7)) < FixPt.fromInt NUM_ANGLES /\
  0 <= drawnAngle (AirUnit_turn sampleLib game1 (unitHeading 7)) < NUM_ANGLES /\
  drawnAngle (AirUnit_turn sampleLib game1 (unitHeading 7))
    = FixPt.lround (angle (AirUnit_turn sampleLib game1 (unitHeading 7)))
      mod NUM_ANGLES.
Proof.
  apply (AirUnit_turn_heading_invariant sampleLib game1 (unitHeading 7));
    vm_compute; try split; congruence.
Defined.

(** X8: one turn step toward the destination moves the heading by exactly
    [min(turnspeed, distance)] around the ring, for headings in
    [[0, NUM_ANGLES)] and a turn speed that is not negative: never by more
    than the turn speed. *)
Theorem AirUnit_turn_step_size (L : MathLib) (g : Game) (u : Unit) :
  isValid (destination u) = true ->
  primaryWeaponTimer u <= Z.quot (getWeaponReloadTime g u) 3 ->
  0 <= angle u < FixPt.fromInt NUM_ANGLES ->
  0 <= destinationAngleOf L u < FixPt.fromInt NUM_ANGLES ->
  0 <= turnspeed (objectData g (itemID u) (originalHouseID u)) ->
  ringDist (FixPt.fromInt NUM_ANGLES) (angle (AirUnit_turn L g u)) (angle u)
  = Z.min (turnspeed (objectData g (itemID u) (originalHouseID u)))
          (ringDist (FixPt.fromInt NUM_ANGLES) (angle u) (destinationAngleOf L u)).
Proof.
  intros Hv Htimer Hh Hd Ht. rewrite AirUnit_turn_toward by assumption.
  apply turnToward_step; assumption.
Qed.

Lemma AirUnit_turn_step_size_witness :
  ringDist (FixPt.fromInt NUM_ANGLES)
           (angle (AirUnit_turn sampleLib game1 (unitHeading 6)))
           (angle (unitHeading 6))
  = FixPt.fromInt 1.
Proof.
  rewrite (AirUnit_turn_step_size sampleLib game1 (unitHeading 6)
             eq_refl ltac:(vm_compute; congruence)
             ltac:(vm_compute; split; congruence)
             ltac:(vm_compute; split; congruence)
             ltac:(vm_compute; congruence)).
  reflexivity.
Defined.

Lemma AirUnit_turn_iter (L : MathLib) (g : Game) (u : Unit) (n : nat) :
  isValid (destination u) = true ->
  primaryWeaponTimer u <= Z.quot (getWeaponReloadTime g u) 3 ->
  0 <= angle u < FixPt.fromInt NUM_ANGLES ->
  0 <= destinationAngleOf L u < FixPt.fromInt NUM_ANGLES ->
  0 <= turnspeed (objectData g (itemID u) (originalHouseID u)) ->
  exists a da,
    Nat.iter n (AirUnit_turn L g) u = set_heading a da u /\
    0 <= a < FixPt.fromInt NUM_ANGLES /\
    ringDist (FixPt.fromInt NUM_ANGLES) a (destinationAngleOf L u)
    = Z.max 0 (ringDist (FixPt.fromInt NUM_ANGLES) (angle u) (destinationAngleOf L u)
               - Z.of_nat n * turnspeed (objectData g (itemID u) (originalHouseID u))).
Proof.
  intros Hv Htimer Hh Hd Ht.
  assert (Hpos : 0 <= ringDist (FixPt.fromInt NUM_ANGLES) (angle u)
                               (destinationAngleOf L u)).
  { unfold ringDist. rewrite NUM_ANGLES_fix.
    pose proof (Z.mod_pos_bound (angle u - destinationAngleOf L u) 34359738368).
    lia. }
  induction n as [|n IH].
  - exists (angle u), (drawnAngle u). split; [destruct u; reflexivity|].
    split; [exact Hh|]. simpl. lia.
  - destruct IH as [a [da [Hiter [Ha Hdist]]]].
    change (Nat.iter (S n) (AirUnit_turn L g) u)
      with (AirUnit_turn L g (Nat.iter n (AirUnit_turn L g) u)).
    rewrite Hiter.
    rewrite (AirUnit_turn_toward L g (set_heading a da u)) by assumption.
    change (turnspeed (objectData g (itemID (set_heading a da u))
                         (originalHouseID (set_heading a da u))))
      with (turnspeed (objectData g (itemID u) (originalHouseID u))).
    change (destinationAngleOf L (set_heading a da u))
      with (destinationAngleOf L u).
    destruct (turnToward_shape (turnspeed (objectData g (itemID u) (originalHouseID u)))
                (destinationAngleOf L u) (set_heading a da u)) as [a' Ha'].
    pose proof (turnToward_angle_range
                  (turnspeed (objectData g (itemID u) (originalHouseID u)))
                  (destinationAngleOf L u) (set_heading a da u) Ha Hd Ht) as Hr.
    pose proof (turnToward_distance
                  (turnspeed (objectData g (itemID u) (originalHouseID u)))
                  (destinationAngleOf L u) (set_heading a da u) Ha Hd Ht) as Hdd.
    rewrite Ha' in *. rewrite angle_set_heading in Hr, Hdd.
    exists a', (Z.rem (FixPt.lround a') NUM_ANGLES).
    split; [reflexivity|]. split; [exact Hr|].
    rewrite Hdd. change (angle (set_heading a da u)) with a. rewrite Hdist.
    rewrite Nat2Z.inj_succ. nia.
Qed.

(** X9: repeated turn steps toward a fixed destination reach its heading:
    after [n] steps the angular distance is [max(0, distance - n *
    turnspeed)], and once [n * turnspeed] covers the distance the heading is
    the destination heading exactly and stays there. *)
Theorem AirUnit_turn_converges (L : MathLib) (g : Game) (u : Unit) (n : nat) :
  isValid (destination u) = true ->
  primaryWeaponTimer u <= Z.quot (getWeaponReloadTime g u) 3 ->
  0 <= angle u < FixPt.fromInt NUM_ANGLES ->
  0 <= destinationAngleOf L u < FixPt.fromInt NUM_ANGLES ->
  0 <= turnspeed (objectData g (itemID u) (originalHouseID u)) ->
  ringDist (FixPt.fromInt NUM_ANGLES)
           (angle (Nat.iter n (AirUnit_turn L g) u)) (destinationAngleOf L u)
  = Z.max 0 (ringDist (FixPt.fromInt NUM_ANGLES) (angle u) (destinationAngleOf L u)
             - Z.of_nat n * turnspeed (objectData g (itemID u) (originalHouseID u)))
  /\ (ringDist (FixPt.fromInt NUM_ANGLES) (angle u) (destinationAngleOf L u)
      <= Z.of_nat n * turnspeed (objectData g (itemID u) (originalHouseID u)) ->
      angle (Nat.iter n (AirUnit_turn L g) u) = destinationAngleOf L u).
Proof.
  intros Hv Htimer Hh Hd Ht.
  destruct (AirUnit_turn_iter L g u n Hv Htimer Hh Hd Ht)
    as [a [da [Hiter [Ha Hdist]]]].
  rewrite Hiter, angle_set_heading. split; [exact Hdist|].
  intros Hcover. apply ringDist_zero; [exact Ha | exact Hd | lia].
Qed.

Lemma AirUnit_turn_converges_witness :
  angle (Nat.iter 3 (AirUnit_turn sampleLib game1) (unitHeading 3))
  = destinationAngleOf sampleLib (unitHeading 3).
Proof.
  apply (proj2 (AirUnit_turn_converges sampleLib game1 (unitHeading 3) 3
                  eq_refl ltac:(vm_compute; congruence)
                  ltac:(vm_compute; split; congruence)
                  ltac:(vm_compute; split; congruence)
                  ltac:(vm_compute; congruence))).
  vm_compute. congruence.
Defined.

(** X10: without a valid destination, or while the weapon timer is above a
    third of the reload time, [AirUnit::turn] turns the unit right by an
    eighth of its turn speed: for a heading in [[0, NUM_ANGLES)] and a step
    between 0 and [NUM_ANGLES], the new heading is [(angle - step) mod
    NUM_ANGLES]. *)
Theorem AirUnit_turn_idle (L : MathLib) (g : Game) (u : Unit) :
  isValid (destination u) = false
    \/ Z.quot (getWeaponReloadTime g u) 3 < primaryWeaponTimer u ->
  0 <= angle u < FixPt.fromInt NUM_ANGLES ->
  0 <= fx_div L (turnspeed (objectData g (itemID u) (originalHouseID u)))
                (FixPt.fromInt 8) <= FixPt.fromInt NUM_ANGLES ->
  angle (AirUnit_turn L g u)
  = (angle u - fx_div L (turnspeed (objectData g (itemID u) (originalHouseID u)))
                        (FixPt.fromInt 8))
    mod FixPt.fromInt NUM_ANGLES.
Proof.
  intros Hidle Hh Hstep. unfold AirUnit_turn.
  assert (Hguard : isValid (destination u)
                   && (primaryWeaponTimer u <=? Z.quot (getWeaponReloadTime g u) 3)
                   = false).
  { destruct Hidle as [Hv|Htimer].
    - rewrite Hv. reflexivity.
    - apply andb_false_iff. right. apply Z.leb_gt. exact Htimer. }
  rewrite Hguard, angle_set_heading.
  set (step := fx_div L _ _) in *. rewrite NUM_ANGLES_fix in *.
  destruct (Z.ltb_spec (angle u - step) 0) as [Hneg|Hpos].
  - apply (Z.mod_unique_pos _ _ (-1)); lia.
  - symmetry. apply Z.mod_small. lia.
Qed.

Lemma AirUnit_turn_idle_witness :
  angle (AirUnit_turn sampleLib game1
           (sampleUnit ClsAirUnit (FixPt.fromInt 32) (FixPt.fromInt 32) 0 Coord_Invalid))
  = (0 - FixPt.one / 8) mod FixPt.fromInt NUM_ANGLES.
Proof.
  apply (AirUnit_turn_idle sampleLib game1
           (sampleUnit ClsAirUnit (FixPt.fromInt 32) (FixPt.fromInt 32) 0 Coord_Invalid)).
  - left. reflexivity.
  - vm_compute. split; congruence.
  - vm_compute. split; congruence.
Defined.

(** ** What a move step changes *)

Lemma checkPos_guardPoint (L : MathLib) (g : Game) (u : Unit) :
  guardPoint (checkPos L g u) = guardPoint u.
Proof.
  unfold checkPos, Ornithopter_checkPos, AirUnit_checkPos, setDestination.
  destruct (cls u); [reflexivity|].
  destruct (target u); [reflexivity|].
  destruct (isValid (destination u)).
  - destruct (blockDistance L (location u) (destination u) <=? FixPt.fromInt 2);
      reflexivity.
  - destruct (FixPt.fromInt 17 <? blockDistance L (location u) (guardPoint u));
      reflexivity.
Qed.

Lemma moveBy_cases (chk : Unit -> Unit) (dx dy : FixPoint) (m : Map) (u : Unit) :
  let u1 := set_real (realX u + dx) (realY u + dy) u in
  let newLocation := tileOfPosition u1 in
  (newLocation <> location u /\
   AirUnit_moveBy chk dx dy (m, u)
   = (fst (AirUnit_assignToMap (unassignFromMap m u1 (location u), u1) newLocation),
      chk (set_location newLocation
             (snd (AirUnit_assignToMap (unassignFromMap m u1 (location u), u1)
                     newLocation)))))
  \/ (newLocation = location u /\ AirUnit_moveBy chk dx dy (m, u) = (m, chk u1)).
Proof.
  intros u1 newLocation. unfold AirUnit_moveBy.
  fold u1. change (mkCoord _ _) with newLocation.
  change (location u1) with (location u).
  case_bool_decide as Hnew.
  - left. split; [exact Hnew|].
    destruct (AirUnit_assignToMap (unassignFromMap m u1 (location u), u1) newLocation)
      as [m2 u2]. reflexivity.
  - right. split; [|reflexivity].
    destruct (decide (newLocation = location u)); [assumption | contradiction].
Qed.

Lemma assignToMap_guardPoint (m : Map) (u : Unit) (pos : Coord) :
  guardPoint (snd (AirUnit_assignToMap (m, u) pos))
  = if tileExists m pos && isInvalid (guardPoint u) then pos else guardPoint u.
Proof.
  unfold AirUnit_assignToMap.
  destruct (tileExists m pos); [|reflexivity].
  destruct (isInvalid (guardPoint u)); reflexivity.
Qed.

Lemma tileExists_unassign (m : Map) (u : Unit) (p q : Coord) :
  tileExists (unassignFromMap m u p) q = tileExists m q.
Proof.
  unfold unassignFromMap. destruct (tileExists m p); [|reflexivity].
  apply tileExists_alter.
Qed.

(** X11: the guard point is set once.  A move step of [AirUnit::move] never
    changes a valid guard point; an invalid one becomes the new location
    when the unit enters another tile that the map has, and stays invalid
    otherwise. *)
Theorem AirUnit_move_guardPoint (L : MathLib) (g : Game) (m : Map) (u : Unit) :
  (isInvalid (guardPoint u) = false ->
   guardPoint (snd (AirUnit_move L g (m, u))) = guardPoint u) /\
  (isInvalid (guardPoint u) = true ->
   guardPoint (snd (AirUnit_move L g (m, u)))
   = if bool_decide (location (snd (AirUnit_move L g (m, u))) <> location u)
        && tileExists m (location (snd (AirUnit_move L g (m, u))))
     then location (snd (AirUnit_move L g (m, u)))
     else guardPoint u).
Proof.
  unfold AirUnit_move. cbn [snd].
  set (dx := fx_mul L _ _). set (dy := fx_mul L _ _).
  destruct (moveBy_cases (checkPos L g) dx dy m u) as [[Hnew ->]|[Heq ->]];
    cbn [snd].
  - destruct (checkPos_frame L g
                (set_location (tileOfPosition (set_real (realX u + dx) (realY u + dy) u))
                   (snd (AirUnit_assignToMap
                           (unassignFromMap m (set_real (realX u + dx) (realY u + dy) u)
                              (location u),
                            set_real (realX u + dx) (realY u + dy) u)
                           (tileOfPosition (set_real (realX u + dx) (realY u + dy) u))))))
      as [_ [Hloc _]].
    rewrite checkPos_guardPoint, Hloc.
    change (guardPoint (set_location ?l ?v)) with (guardPoint v).
    change (location (set_location ?l ?v)) with l.
    rewrite assignToMap_guardPoint, tileExists_unassign.
    change (guardPoint (set_real ?x ?y u)) with (guardPoint u).
    split; intros Hgp; rewrite Hgp.
    + rewrite andb_false_r. reflexivity.
    + rewrite andb_true_r. rewrite bool_decide_eq_true_2 by exact Hnew.
      reflexivity.
  - destruct (checkPos_frame L g (set_real (realX u + dx) (realY u + dy) u))
      as [_ [Hloc _]].
    rewrite checkPos_guardPoint, Hloc.
    change (guardPoint (set_real ?x ?y u)) with (guardPoint u).
    change (location (set_real ?x ?y u)) with (location u).
    split; intros Hgp; [reflexivity|].
    rewrite bool_decide_eq_false_2 by (intros H; apply H; reflexivity).
    reflexivity.
Qed.

Lemma AirUnit_move_guardPoint_witness :
  guardPoint (snd (AirUnit_move sampleLib game1
                     (unitAt (FixPt.fromInt 62) (FixPt.fromInt 32))))
  = mkCoord 0 0.
Proof.
  apply (proj1 (AirUnit_move_guardPoint sampleLib game1 sampleMap
                  (sampleUnit ClsAirUnit (FixPt.fromInt 62) (FixPt.fromInt 32) 0
                              (mkCoord 5 0)))).
  reflexivity.
Defined.

Lemma getTile_unassign_other (m : Map) (u : Unit) (p q : Coord) :
  q <> p -> getTile (unassignFromMap m u p) q = getTile m q.
Proof.
  intros Hne. unfold unassignFromMap, getTile.
  destruct (tileExists m p); [|reflexivity].
  apply lookup_alter_ne. congruence.
Qed.

Lemma getTile_assign_other (m : Map) (u : Unit) (p q : Coord) :
  q <> p -> getTile (fst (AirUnit_assignToMap (m, u) p)) q = getTile m q.
Proof.
  intros Hne. unfold AirUnit_assignToMap, getTile.
  destruct (tileExists m p); [|reflexivity].
  cbn [fst]. apply lookup_alter_ne. congruence.
Qed.

Lemma AirUnit_move_as_moveBy (L : MathLib) (g : Game) (s : Map * Unit) :
  exists dx dy, AirUnit_move L g s = AirUnit_moveBy (checkPos L g) dx dy s.
Proof. unfold AirUnit_move. eexists. eexists. reflexivity. Qed.

Lemma moveBy_new_location (L : MathLib) (g : Game) (dx dy : FixPoint)
    (m : Map) (u : Unit) :
  location (snd (AirUnit_moveBy (checkPos L g) dx dy (m, u)))
  = tileOfPosition (set_real (realX u + dx) (realY u + dy) u).
Proof.
  destruct (moveBy_cases (checkPos L g) dx dy m u) as [[Hnew ->]|[Heq ->]];
    cbn [snd].
  - match goal with
    | |- location (checkPos L g ?v) = _ =>
        destruct (checkPos_frame L g v) as [_ [Hloc _]]; rewrite Hloc
    end.
    reflexivity.
  - destruct (checkPos_frame L g (set_real (realX u + dx) (realY u + dy) u))
      as [_ [Hloc _]].
    rewrite Hloc. symmetry. exact Heq.
Qed.

(** X12: a move step touches at most two tiles.  Every tile other than the
    one the unit leaves and the one it arrives on is the same after
    [AirUnit::move]; if the unit stays on its tile, the whole map is
    unchanged; and no tile is created or removed. *)
Theorem AirUnit_move_tiles (L : MathLib) (g : Game) (m : Map) (u : Unit) :
  (forall q, q <> location u ->
             q <> location (snd (AirUnit_move L g (m, u))) ->
             getTile (fst (AirUnit_move L g (m, u))) q = getTile m q) /\
  (location (snd (AirUnit_move L g (m, u))) = location u ->
   fst (AirUnit_move L g (m, u)) = m) /\
  (forall q, tileExists (fst (AirUnit_move L g (m, u))) q = tileExists m q).
Proof.
  destruct (AirUnit_move_as_moveBy L g (m, u)) as [dx [dy ->]].
  rewrite moveBy_new_location.
  destruct (moveBy_cases (checkPos L g) dx dy m u) as [[Hnew ->]|[Heq ->]];
    cbn [fst].
  - split; [|split].
    + intros q Hq1 Hq2.
      rewrite getTile_assign_other by exact Hq2.
      apply getTile_unassign_other. exact Hq1.
    + intros Hsame. contradiction.
    + intros q. rewrite assignToMap_tileExists. cbn [fst].
      apply tileExists_unassign.
  - split; [|split]; reflexivity.
Qed.

Lemma AirUnit_move_tiles_witness :
  fst (AirUnit_move sampleLib game1 (unitAt (FixPt.fromInt 32) (FixPt.fromInt 32)))
  = sampleMap.
Proof.
  apply (proj1 (proj2 (AirUnit_move_tiles sampleLib game1 sampleMap
                         (sampleUnit ClsAirUnit (FixPt.fromInt 32) (FixPt.fromInt 32)
                                     0 (mkCoord 5 0))))).
  reflexivity.
Defined.

Lemma inAirListAt_unassign_other (m : Map) (u : Unit) (p q : Coord) (i : Z) :
  i <> objectID u ->
  inAirListAt (unassignFromMap m u p) i q <-> inAirListAt m i q.
Proof.
  intros Hi. unfold inAirListAt, unassignFromMap, getTile, tileExists, getTile.
  destruct (m !! p) as [tp|] eqn:Hp; [|reflexivity].
  destruct (decide (p = q)) as [->|Hne].
  - rewrite lookup_alter_eq, Hp. simpl. split.
    + intros [t [Ht Hin]]. inversion Ht; subst t. simpl in Hin.
      apply list_elem_of_filter in Hin as [_ Hin]. exists tp. split; [reflexivity|exact Hin].
    + intros [t [Ht Hin]]. inversion Ht; subst t.
      eexists. split; [reflexivity|]. simpl.
      apply list_elem_of_filter. split; assumption.
  - rewrite lookup_alter_ne by assumption. reflexivity.
Qed.

Lemma inAirListAt_assign_other (m : Map) (u : Unit) (p q : Coord) (i : Z) :
  i <> objectID u ->
  inAirListAt (fst (AirUnit_assignToMap (m, u) p)) i q <-> inAirListAt m i q.
Proof.
  intros Hi. unfold inAirListAt, AirUnit_assignToMap, getTile, tileExists, getTile.
  destruct (m !! p) as [tp|] eqn:Hp; [|reflexivity].
  assert (Hid : objectID (if isInvalid (guardPoint u)
                          then set_guardPoint p u else u) = objectID u)
    by (destruct (isInvalid (guardPoint u)); reflexivity).
  cbn [fst]. rewrite Hid.
  destruct (decide (p = q)) as [->|Hne].
  - rewrite lookup_alter_eq, Hp. simpl. split.
    + intros [t [Ht Hin]]. inversion Ht; subst t. simpl in Hin.
      apply elem_of_app in Hin as [Hin|Hin].
      * exists tp. split; [reflexivity|exact Hin].
      * apply list_elem_of_singleton in Hin. contradiction.
    + intros [t [Ht Hin]]. inversion Ht; subst t.
      eexists. split; [reflexivity|]. simpl.
      apply elem_of_app. left. exact Hin.
  - rewrite lookup_alter_ne by assumption. reflexivity.
Qed.

(** X13: a move step never changes where other objects are registered: for
    every object id other than the unit's own and every coordinate, the id
    is in the air-unit list of the tile after [AirUnit::move] exactly when
    it was before. *)
Theorem AirUnit_move_other_units (L : MathLib) (g : Game) (m : Map) (u : Unit)
    (i : Z) (q : Coord) :
  i <> objectID u ->
  inAirListAt (fst (AirUnit_move L g (m, u))) i q <-> inAirListAt m i q.
Proof.
  intros Hi.
  destruct (AirUnit_move_as_moveBy L g (m, u)) as [dx [dy ->]].
  destruct (moveBy_cases (checkPos L g) dx dy m u) as [[Hnew ->]|[Heq ->]];
    cbn [fst]; [|reflexivity].
  rewrite inAirListAt_assign_other by exact Hi.
  apply inAirListAt_unassign_other. exact Hi.
Qed.

Lemma AirUnit_move_other_units_witness :
  inAirListAt (fst (AirUnit_move sampleLib game1
                      (unitAt (FixPt.fromInt 62) (FixPt.fromInt 32)))) 8 (mkCoord 0 0)
  <-> inAirListAt sampleMap 8 (mkCoord 0 0).
Proof.
  apply (AirUnit_move_other_units sampleLib game1 sampleMap
           (sampleUnit ClsAirUnit (FixPt.fromInt 62) (FixPt.fromInt 32) 0 (mkCoord 5 0))
           8 (mkCoord 0 0)).
  vm_compute. congruence.
Defined.

Lemma move_location_eq (L : MathLib) (g : Game) (s : Map * Unit) :
  location (snd (AirUnit_move L g s)) = tileOfPosition (snd (AirUnit_move L g s)).
Proof.
  unfold AirUnit_move. apply moveBy_location.
  intros u. pose proof (checkPos_frame L g u). tauto.
Qed.

Lemma quot_tile_bounds (r : Z) :
  (0 <= r -> TILESIZE * Z.quot r TILESIZE <= r < TILESIZE * (Z.quot r TILESIZE + 1)) /\
  (r <= 0 -> TILESIZE * (Z.quot r TILESIZE - 1) < r <= TILESIZE * Z.quot r TILESIZE) /\
  (- TILESIZE < r < TILESIZE -> Z.quot r TILESIZE = 0).
Proof. unfold TILESIZE. Z.quot_rem_to_equations. lia. Qed.

(** X14: how the location follows the position.  After [AirUnit::move] the
    rounded position [r = lround(realX)] lies in the tile column of the
    location when [r >= 0]: [TILESIZE * x <= r < TILESIZE * (x + 1)]; the
    division truncates, so every [r] strictly between [-TILESIZE] and
    [TILESIZE] is in column 0, and a negative [r] lies in
    [(TILESIZE * (x - 1), TILESIZE * x]].  The same holds for [realY] and
    the row. *)
Theorem AirUnit_move_tile_bounds (L : MathLib) (g : Game) (s : Map * Unit) :
  let u' := snd (AirUnit_move L g s) in
  (0 <= FixPt.lround (realX u') ->
   TILESIZE * coord_x (location u') <= FixPt.lround (realX u')
     < TILESIZE * (coord_x (location u') + 1)) /\
  (FixPt.lround (realX u') <= 0 ->
   TILESIZE * (coord_x (location u') - 1) < FixPt.lround (realX u')
     <= TILESIZE * coord_x (location u')) /\
  (- TILESIZE < FixPt.lround (realX u') < TILESIZE -> coord_x (location u') = 0) /\
  (0 <= FixPt.lround (realY u') ->
   TILESIZE * coord_y (location u') <= FixPt.lround (realY u')
     < TILESIZE * (coord_y (location u') + 1)) /\
  (FixPt.lround (realY u') <= 0 ->
   TILESIZE * (coord_y (location u') - 1) < FixPt.lround (realY u')
     <= TILESIZE * coord_y (location u')) /\
  (- TILESIZE < FixPt.lround (realY u') < TILESIZE -> coord_y (location u') = 0).
Proof.
  intros u'. pose proof (move_location_eq L g s) as Hloc.
  fold u' in Hloc. rewrite Hloc. unfold tileOfPosition. cbn [coord_x coord_y].
  destruct (quot_tile_bounds (FixPt.lround (realX u'))) as [H1 [H2 H3]].
  destruct (quot_tile_bounds (FixPt.lround (realY u'))) as [H4 [H5 H6]].
  split; [exact H1|]. split; [exact H2|]. split; [exact H3|].
  split; [exact H4|]. split; [exact H5 | exact H6].
Qed.

Lemma AirUnit_move_tile_bounds_witness :
  coord_x (location (snd (AirUnit_move sampleLib game1
                            (unitAt (FixPt.fromInt (-40)) (FixPt.fromInt 32))))) = 0.
Proof.
  apply (proj1 (proj2 (proj2 (AirUnit_move_tile_bounds sampleLib game1
                                (unitAt (FixPt.fromInt (-40)) (FixPt.fromInt 32)))))).
  vm_compute. split; reflexivity.
Defined.

(** ** Occupied tiles and [Ornithopter::canPass] *)

Lemma canPass_occupied (m : Map) (v : Unit) (pos : Coord) (i : Z) :
  inAirListAt m i pos ->
  Ornithopter_canPass m v (coord_x pos) (coord_y pos) = false.
Proof.
  intros [t [Ht Hin]]. unfold Ornithopter_canPass, tileExists.
  replace (mkCoord (coord_x pos) (coord_y pos)) with pos by (destruct pos; reflexivity).
  rewrite Ht. simpl. unfold hasAnAirUnit.
  destruct (assignedAirUnitList t); [|reflexivity].
  apply elem_of_nil in Hin. contradiction.
Qed.

(** X15: once [AirUnit::assignToMap] has put a unit on a tile that the map
    has, [Ornithopter::canPass] is false at that coordinate for every
    ornithopter, while [AirUnit::canPass] stays true. *)
Theorem assignToMap_blocks_ornithopters (m : Map) (u v : Unit) (pos : Coord) :
  tileExists m pos = true ->
  Ornithopter_canPass (fst (AirUnit_assignToMap (m, u) pos)) v
                      (coord_x pos) (coord_y pos) = false /\
  AirUnit_canPass (fst (AirUnit_assignToMap (m, u) pos)) v
                  (coord_x pos) (coord_y pos) = true.
Proof.
  intros Hex. split; [|reflexivity].
  apply (canPass_occupied _ v pos (objectID u)).
  apply elem_of_airTilesOf. rewrite airTilesOf_assign, Hex.
  apply elem_of_union. right. apply elem_of_singleton. reflexivity.
Qed.

Lemma assignToMap_blocks_ornithopters_witness :
  Ornithopter_canPass
    (fst (AirUnit_assignToMap (emptyTileMap, ornithopterTo Coord_Invalid) (mkCoord 0 0)))
    (ornithopterTo Coord_Invalid) 0 0 = false.
Proof.
  apply (proj1 (assignToMap_blocks_ornithopters emptyTileMap
                  (ornithopterTo Coord_Invalid) (ornithopterTo Coord_Invalid)
                  (mkCoord 0 0) eq_refl)).
Defined.

(** X16: after a move step of a unit that was registered at its location,
    no ornithopter can pass the tile of the unit's new location: where the
    map has that tile, [Ornithopter::canPass] is false because the unit is
    on it, and where it has none, because there is no tile. *)
Theorem AirUnit_move_blocks_ornithopters (L : MathLib) (g : Game)
    (s : Map * Unit) (v : Unit) :
  registeredAtLocation s ->
  Ornithopter_canPass (fst (AirUnit_move L g s)) v
    (coord_x (location (snd (AirUnit_move L g s))))
    (coord_y (location (snd (AirUnit_move L g s)))) = false.
Proof.
  intros Hreg. pose proof (AirUnit_move_registered L g s Hreg) as Hreg'.
  unfold registeredAtLocation in Hreg'.
  destruct (tileExists (fst (AirUnit_move L g s))
              (location (snd (AirUnit_move L g s)))) eqn:Hex.
  - apply (canPass_occupied _ v _ (objectID (snd (AirUnit_move L g s)))).
    apply elem_of_airTilesOf. rewrite Hreg'. apply elem_of_singleton. reflexivity.
  - unfold Ornithopter_canPass.
    replace (mkCoord (coord_x (location (snd (AirUnit_move L g s))))
                     (coord_y (location (snd (AirUnit_move L g s)))))
      with (location (snd (AirUnit_move L g s)))
      by (destruct (location (snd (AirUnit_move L g s))); reflexivity).
    rewrite Hex. reflexivity.
Qed.

Lemma AirUnit_move_blocks_ornithopters_witness :
  Ornithopter_canPass
    (fst (AirUnit_move sampleLib game1 (unitAt (FixPt.fromInt 32) (FixPt.fromInt 32))))
    (ornithopterTo Coord_Invalid)
    (coord_x (location (snd (AirUnit_move sampleLib game1
                               (unitAt (FixPt.fromInt 32) (FixPt.fromInt 32))))))
    (coord_y (location (snd (AirUnit_move sampleLib game1
                               (unitAt (FixPt.fromInt 32) (FixPt.fromInt 32))))))
  = false.
Proof.
  apply (AirUnit_move_blocks_ornithopters sampleLib game1
           (unitAt (FixPt.fromInt 32) (FixPt.fromInt 32))
           (ornithopterTo Coord_Invalid)).
  apply sample_registered.
Defined.

(** ** [Ornithopter::checkPos] *)

Lemma Ornithopter_checkPos_frame_eq (L : MathLib) (g : Game) (u : Unit) :
  drawnFrame (Ornithopter_checkPos L g u)
  = (((gameCycleCount g + objectID u) mod 2 ^ 32) / ORNITHOPTER_FRAMETIME)
    mod (numImagesY u mod 2 ^ 32).
Proof.
  unfold Ornithopter_checkPos, AirUnit_checkPos, setDestination.
  destruct (target u); [reflexivity|].
  destruct (isValid (destination u)).
  - destruct (blockDistance L (location u) (destination u) <=? FixPt.fromInt 2);
      reflexivity.
  - destruct (FixPt.fromInt 17 <? blockDistance L (location u) (guardPoint u));
      reflexivity.
Qed.

(** X17: the frame that [Ornithopter::checkPos] selects is a valid row of
    the sprite sheet: for a unit with [0 < numImagesY < 2^32] rows it lies
    in [[0, numImagesY)], at every game cycle and for every object id. *)
Theorem Ornithopter_checkPos_frame_range (L : MathLib) (g : Game) (u : Unit) :
  0 < numImagesY u < 2 ^ 32 ->
  0 <= drawnFrame (Ornithopter_checkPos L g u) < numImagesY u.
Proof.
  intros Hn. rewrite Ornithopter_checkPos_frame_eq.
  rewrite (Z.mod_small (numImagesY u)) by lia.
  apply Z.mod_pos_bound. lia.
Qed.

Lemma Ornithopter_checkPos_frame_range_witness :
  0 <= drawnFrame (Ornithopter_checkPos sampleLib game1 (ornithopterTo (mkCoord 5 0)))
    < 3.
Proof.
  apply (Ornithopter_checkPos_frame_range sampleLib game1 (ornithopterTo (mkCoord 5 0))).
  vm_compute. split; reflexivity.
Defined.

(** X18: the wings of an ornithopter, which has three rows of images, go
    one frame further every [ORNITHOPTER_FRAMETIME] = 3 game cycles and
    start again after the third: as long as the sum of cycle count and
    object id does not wrap around at [2^32], the frame three cycles later
    is the frame now plus one, modulo 3. *)
Theorem Ornithopter_checkPos_frame_advance (L : MathLib) (g : Game) (u : Unit)
    (cycle : Z) :
  numImagesY u = 3 ->
  0 <= cycle + objectID u ->
  cycle + ORNITHOPTER_FRAMETIME + objectID u < 2 ^ 32 ->
  drawnFrame (Ornithopter_checkPos L (atCycle g (cycle + ORNITHOPTER_FRAMETIME)) u)
  = (drawnFrame (Ornithopter_checkPos L (atCycle g cycle) u) + 1) mod 3.
Proof.
  unfold ORNITHOPTER_FRAMETIME. intros Hn Hlo Hhi.
  rewrite !Ornithopter_checkPos_frame_eq. unfold atCycle, ORNITHOPTER_FRAMETIME.
  cbn [gameCycleCount]. rewrite Hn.
  rewrite !(Z.mod_small _ (2 ^ 32)) by lia.
  replace (cycle + 3 + objectID u) with (cycle + objectID u + 1 * 3) by lia.
  rewrite Z.div_add by lia.
  rewrite Z.add_mod_idemp_l by lia. reflexivity.
Qed.

Lemma Ornithopter_checkPos_frame_advance_witness :
  drawnFrame (Ornithopter_checkPos sampleLib
                (atCycle game1 (10 + ORNITHOPTER_FRAMETIME)) (ornithopterTo (mkCoord 5 0)))
  = (drawnFrame (Ornithopter_checkPos sampleLib (atCycle game1 10)
                   (ornithopterTo (mkCoord 5 0))) + 1) mod 3.
Proof.
  apply (Ornithopter_checkPos_frame_advance sampleLib game1
           (ornithopterTo (mkCoord 5 0)) 10).
  - reflexivity.
  - vm_compute. congruence.
  - vm_compute. reflexivity.
Defined.

Lemma checkPos_destination_kept (L : MathLib) (g : Game) (u : Unit) :
  target u <> None
  \/ (isValid (destination u) = true
      /\ FixPt.fromInt 2 < blockDistance L (location u) (destination u))
  \/ (isValid (destination u) = false
      /\ blockDistance L (location u) (guardPoint u) <= FixPt.fromInt 17) ->
  destination (Ornithopter_checkPos L g u) = destination u.
Proof.
  unfold Ornithopter_checkPos, AirUnit_checkPos, setDestination.
  intros [Ht|[[Hv Hd]|[Hv Hd]]].
  - destruct (target u); [reflexivity | contradiction].
  - destruct (target u); [reflexivity|]. rewrite Hv.
    destruct (Z.leb_spec (blockDistance L (location u) (destination u))
                (FixPt.fromInt 2)); [lia | reflexivity].
  - destruct (target u); [reflexivity|]. rewrite Hv.
    destruct (Z.ltb_spec (FixPt.fromInt 17)
                (blockDistance L (location u) (guardPoint u))); [lia | reflexivity].
Qed.

(** X19: apart from the two cases in which it resets the destination,
    [Ornithopter::checkPos] leaves the destination alone: when the unit has
    a target, when its valid destination is at block distance more than 2,
    and when it has no destination and the guard point is at block distance
    at most 17. *)
Theorem Ornithopter_checkPos_keeps_destination (L : MathLib) (g : Game) (u : Unit) :
  target u <> None
  \/ (isValid (destination u) = true
      /\ FixPt.fromInt 2 < blockDistance L (location u) (destination u))
  \/ (isValid (destination u) = false
      /\ blockDistance L (location u) (guardPoint u) <= FixPt.fromInt 17) ->
  destination (Ornithopter_checkPos L g u) = destination u.
Proof. apply checkPos_destination_kept. Qed.

Lemma Ornithopter_checkPos_keeps_destination_witness :
  destination (Ornithopter_checkPos sampleLib game1 (ornithopterTo (mkCoord 5 0)))
  = mkCoord 5 0.
Proof.
  apply (Ornithopter_checkPos_keeps_destination sampleLib game1
           (ornithopterTo (mkCoord 5 0))).
  right. left. split; [reflexivity | vm_compute; reflexivity].
Defined.

Lemma Ornithopter_checkPos_rest (L : MathLib) (g : Game) (u : Unit) :
  target (Ornithopter_checkPos L g u) = target u /\
  location (Ornithopter_checkPos L g u) = location u /\
  guardPoint (Ornithopter_checkPos L g u) = guardPoint u.
Proof.
  unfold Ornithopter_checkPos, AirUnit_checkPos, setDestination.
  destruct (target u) eqn:Ht; [rewrite ?Ht; repeat split; assumption|].
  destruct (isValid (destination u)).
  - destruct (blockDistance L (location u) (destination u) <=? FixPt.fromInt 2);
      repeat split; assumption.
  - destruct (FixPt.fromInt 17 <? blockDistance L (location u) (guardPoint u));
      repeat split; assumption.
Qed.

Lemma checkPos_invalid_stays (L : MathLib) (ticks : list Game) (v : Unit) :
  target v = None ->
  isValid (destination v) = false ->
  blockDistance L (location v) (guardPoint v) <= FixPt.fromInt 17 ->
  isValid (destination
             (fold_left (fun w g' => Ornithopter_checkPos L g' w) ticks v)) = false.
Proof.
  revert v. induction ticks as [|g' ticks IH]; intros v Ht Hinv Hgp; cbn [fold_left].
  - exact Hinv.
  - destruct (Ornithopter_checkPos_rest L g' v) as [Ht2 [Hl2 Hg2]].
    apply IH.
    + rewrite Ht2. exact Ht.
    + rewrite checkPos_destination_kept; [exact Hinv|].
      right. right. split; assumption.
    + rewrite Hl2, Hg2. exact Hgp.
Qed.

(** X20: a destination that has been reached stays invalid.  For an
    ornithopter without a target that is within block distance 2 of its
    valid destination and within block distance 17 of its guard point, the
    destination is invalid after one call of [checkPos] and after every
    further call at the same location, whatever the game cycle. *)
Theorem Ornithopter_checkPos_reached_stays (L : MathLib) (u : Unit)
    (g : Game) (ticks : list Game) :
  target u = None ->
  isValid (destination u) = true ->
  blockDistance L (location u) (destination u) <= FixPt.fromInt 2 ->
  blockDistance L (location u) (guardPoint u) <= FixPt.fromInt 17 ->
  isValid (destination
             (fold_left (fun v g' => Ornithopter_checkPos L g' v) ticks
                        (Ornithopter_checkPos L g u))) = false.
Proof.
  intros Ht Hv Hd Hgp.
  destruct (Ornithopter_checkPos_rest L g u) as [Ht1 [Hl1 Hg1]].
  apply checkPos_invalid_stays.
  - rewrite Ht1. exact Ht.
  - unfold Ornithopter_checkPos, AirUnit_checkPos. rewrite Ht, Hv.
    destruct (Z.leb_spec (blockDistance L (location u) (destination u))
                (FixPt.fromInt 2)); [reflexivity | lia].
  - rewrite Hl1, Hg1. exact Hgp.
Qed.

Lemma Ornithopter_checkPos_reached_stays_witness :
  isValid (destination
             (fold_left (fun v g' => Ornithopter_checkPos sampleLib g' v)
                        [game1; game1]
                        (Ornithopter_checkPos sampleLib game1
                           (ornithopterTo (mkCoord 2 1))))) = false.
Proof.
  apply (Ornithopter_checkPos_reached_stays sampleLib (ornithopterTo (mkCoord 2 1))
           game1 [game1; game1]).
  - reflexivity.
  - reflexivity.
  - vm_compute. congruence.
  - vm_compute. congruence.
Defined.

(** ** What [Ornithopter::init] establishes *)

Lemma ornithopterForm_set_heading (g : Game) (u : Unit) (a : FixPoint) (da : Z) :
  ornithopterForm g u -> ornithopterForm g (set_heading a da u).
Proof. intros H. exact H. Qed.

Lemma ornithopterForm_checkPos (L : MathLib) (g g' : Game) (u : Unit) :
  ornithopterForm g u -> ornithopterForm g (checkPos L g' u).
Proof.
  intros H. unfold checkPos, Ornithopter_checkPos, AirUnit_checkPos, setDestination.
  destruct (cls u); [exact H|].
  destruct (target u); [exact H|].
  destruct (isValid (destination u)).
  - destruct (blockDistance L (location u) (destination u) <=? FixPt.fromInt 2);
      exact H.
  - destruct (FixPt.fromInt 17 <? blockDistance L (location u) (guardPoint u));
      exact H.
Qed.

Lemma ornithopterForm_assignToMap (g : Game) (m : Map) (u : Unit) (pos : Coord) :
  ornithopterForm g u -> ornithopterForm g (snd (AirUnit_assignToMap (m, u) pos)).
Proof.
  intros H. unfold AirUnit_assignToMap.
  destruct (tileExists m pos); [|exact H].
  destruct (isInvalid (guardPoint u)); exact H.
Qed.

Lemma AirUnit_load_flying (stream : list Z) (v : Unit) (rest : list Z) :
  AirUnit_load stream = Some (v, rest) -> aFlyingUnit v = true.
Proof.
  unfold AirUnit_load, bind, ret.
  destruct (UnitBase_load stream) as [[u0 r0]|]; [|discriminate].
  destruct (readFixPoint r0) as [[speed r1]|]; [|discriminate].
  intros Heq. inversion Heq; subst. reflexivity.
Qed.

(** X21: the ornithopter form is an invariant.  Both constructors of
    [Ornithopter] yield a unit of class and item ornithopter with three rows
    of images, the flying flag set and the max speed of the balance table
    (not the 2 that the constructor of [AirUnit] assigns first), and
    [AirUnit::turn], [AirUnit::navigate], [checkPos] and [AirUnit::move]
    keep all of that. *)
Theorem ornithopterForm_invariant (L : MathLib) (g g' : Game) :
  (forall maxHealth base, ornithopterForm g (Ornithopter_new g maxHealth base)) /\
  (forall stream u rest,
     Ornithopter_load g stream = Some (u, rest) -> ornithopterForm g u) /\
  (forall u, ornithopterForm g u ->
     ornithopterForm g (AirUnit_turn L g' u) /\
     ornithopterForm g (AirUnit_navigate u) /\
     ornithopterForm g (checkPos L g' u) /\
     forall m, ornithopterForm g (snd (AirUnit_move L g' (m, u)))).
Proof.
  split; [|split].
  - intros maxHealth base. unfold ornithopterForm. repeat split; reflexivity.
  - intros stream u rest. unfold Ornithopter_load, bind, ret.
    destruct (AirUnit_load stream) as [[v rest']|] eqn:Hload; [|discriminate].
    intros Heq. inversion Heq; subst. unfold ornithopterForm.
    repeat split; try reflexivity.
    apply (AirUnit_load_flying stream v rest). exact Hload.
  - intros u Hform. split; [|split; [|split]].
    + destruct (AirUnit_turn_shape L g' u) as [a ->].
      apply ornithopterForm_set_heading. exact Hform.
    + exact Hform.
    + apply ornithopterForm_checkPos. exact Hform.
    + intros m.
      destruct (AirUnit_move_as_moveBy L g' (m, u)) as [dx [dy ->]].
      destruct (moveBy_cases (checkPos L g') dx dy m u) as [[_ ->]|[_ ->]];
        cbn [snd]; apply ornithopterForm_checkPos.
      * apply (ornithopterForm_assignToMap g _ (set_real (realX u + dx) (realY u + dy) u)).
        exact Hform.
      * exact Hform.
Qed.

Lemma ornithopterForm_invariant_witness :
  ornithopterForm game1
    (snd (AirUnit_move sampleLib game1 (sampleMap, ornithopterTo (mkCoord 5 0)))).
Proof.
  apply (proj2 (proj2 (ornithopterForm_invariant sampleLib game1 game1))
           (ornithopterTo (mkCoord 5 0))).
  unfold ornithopterForm. repeat split; reflexivity.
Defined.

(** X22: for an ornithopter in that form whose members fit their machine
    types, saving and loading is the identity: the stream constructor of
    [Ornithopter] reads exactly the bytes that [AirUnit::save] wrote and
    returns the very unit that was saved. *)
Theorem Ornithopter_save_load_identity (g : Game) (u : Unit) (rest : list Z) :
  wellTyped u ->
  ornithopterForm g u ->
  Ornithopter_load g (AirUnit_save u [] ++ rest) = Some (u, rest).
Proof.
  intros Hwt [Hcls [Hitem [Hn [Hfly Hspeed]]]].
  rewrite Ornithopter_save_load by exact Hwt.
  f_equal. f_equal. destruct u. simpl in *. subst.
  unfold Ornithopter_init, set_currentMaxSpeed, set_kind, AirUnit_init,
    set_aFlyingUnit, asLoadedBase. simpl. reflexivity.
Qed.

Lemma ornithopter_wellTyped : wellTyped (ornithopterTo (mkCoord 5 0)).
Proof.
  constructor; try (intros i Hi; discriminate Hi);
    vm_compute; repeat split; discriminate.
Qed.

Lemma Ornithopter_save_load_identity_witness :
  Ornithopter_load game1 (AirUnit_save (ornithopterTo (mkCoord 5 0)) [])
  = Some (ornithopterTo (mkCoord 5 0), []).
Proof.
  rewrite <- (app_nil_r (AirUnit_save (ornithopterTo (mkCoord 5 0)) [])).
  apply (Ornithopter_save_load_identity game1 (ornithopterTo (mkCoord 5 0)) []).
  - apply ornithopter_wellTyped.
  - unfold ornithopterForm. repeat split; reflexivity.
Defined.
